(** * Open Graph image handler ([src/pages/api/opengraph/image.ts])

    A shallow embedding of the request handler and of the JavaScript
    primitives it relies on ([RegExp.prototype.test], [parseInt],
    truthiness, [Array.prototype.includes], [Error.prototype.toString],
    [try]/[catch]/[finally]), followed by the properties of the handler.

    Conventions of the embedding.
    - A JavaScript string is a [string]; an [ascii] stands for the code
      unit of the same number, so the strings covered are those whose code
      units are below 256.
    - A JavaScript Number that holds an integer is the integer itself
      (a [Z]); [NaN] is a separate constructor and [-0] is [0].  The
      identification is exact on the safe integers; beyond them the
      Number is the nearest double, which is falsy in no more cases.
    - [puppeteer], [chrome-aws-lambda] and the [NextApiResponse] object are
      collaborators of the handler: the browser is a record of outcomes
      ([World]), and the calls made on the response object are recorded in
      the handler's state.  What the collaborators throw are [Error]
      objects; the calls on [res] and [console] do not throw. *)

From Stdlib Require Import ZArith Ascii String List Bool Lia DecimalString.
From Stdlib Require DecimalPos DecimalN.
From stdpp Require Import gmap strings list.

Local Open Scope string_scope.
Local Open Scope Z_scope.

(** ** Characters *)

Module Char.

Definition code (c : ascii) : N := N_of_ascii c.

Definition in_range (lo hi c : ascii) : bool :=
  ((code lo <=? code c) && (code c <=? code hi))%N.

Definition is_upper (c : ascii) : bool := in_range "A" "Z" c.
Definition is_lower (c : ascii) : bool := in_range "a" "z" c.
Definition is_digit (c : ascii) : bool := in_range "0" "9" c.

(** [\w] is [[A-Za-z0-9_]]. *)
Definition is_word (c : ascii) : bool :=
  is_upper c || is_lower c || is_digit c || Ascii.eqb c "_".

(** The Latin-1 letters that have a Latin-1 counterpart in the other
    case: 192..222 and 224..254, the signs at 215 and 247 apart. *)
Definition is_upper_latin1 (c : ascii) : bool :=
  ((192 <=? code c) && (code c <=? 222) && negb (code c =? 215))%N.
Definition is_lower_latin1 (c : ascii) : bool :=
  ((224 <=? code c) && (code c <=? 254) && negb (code c =? 247))%N.

Definition to_upper (c : ascii) : ascii :=
  if is_lower c || is_lower_latin1 c then ascii_of_N (code c - 32) else c.

Definition to_lower (c : ascii) : ascii :=
  if is_upper c || is_upper_latin1 c then ascii_of_N (code c + 32) else c.

(** [Canonicalize] of the RegExp semantics, without the [u] flag: with
    [ignoreCase] it is the upper-case mapping when that yields a single
    code unit, except that a code unit of 128 or more is never mapped
    to one below 128.  The two code units below 256 whose upper case
    lies above 255 (181 and 255) stay as they are: no other code unit
    below 256 shares their canonical form, so the equality of canonical
    forms, which is all the matcher uses, is that of the semantics. *)
Definition canonicalize (ignoreCase : bool) (c : ascii) : ascii :=
  if ignoreCase then to_upper c else c.

(** The code units that can share the canonical form of [c]. *)
Definition case_variants (c : ascii) : list ascii :=
  [c; to_upper c; to_lower c].

End Char.

(** ** Regular expressions

    The fragment of the RegExp syntax that the allow-list uses: the
    assertion [^], pattern characters and escaped characters, character
    classes built from [\w], [\d] and single characters, the greedy
    quantifiers [+] (on a class) and [?] (on a group), and concatenation. *)

Module RegExp.

Inductive ClassAtom : Type :=
| ClassWord                       (* \w *)
| ClassDigit                      (* \d *)
| ClassChar (c : ascii).          (* a single character *)

Inductive Pattern : Type :=
| Bol                             (* ^ *)
| Chr (c : ascii)                 (* a pattern character, or \c *)
| Class (cs : list ClassAtom)     (* [...] or a lone class escape *)
| ClassPlus (cs : list ClassAtom) (* [...]+ *)
| Opt (p : Pattern)               (* (p)? *)
| Eps                             (* the empty pattern *)
| Seq (p q : Pattern).            (* pq *)

Record t : Type := mk { source : Pattern; ignoreCase : bool }.

(** A match state: the index reached in the input and what is left of
    the input from there. *)
Definition MState : Type := (nat * string)%type.

Definition atom_chars_mem (a : ClassAtom) (c : ascii) : bool :=
  match a with
  | ClassWord => Char.is_word c
  | ClassDigit => Char.is_digit c
  | ClassChar d => Ascii.eqb d c
  end.

(** [CharacterSetMatcher]: with [ignoreCase], [c] is in the set when
    some member of the set has the canonical form of [c]; the members
    with that property are among [Char.case_variants c]. *)
Definition class_mem (i : bool) (cs : list ClassAtom) (c : ascii) : bool :=
  if i then
    existsb (fun a =>
      existsb (fun d => atom_chars_mem a d
                        && Ascii.eqb (Char.canonicalize i d) (Char.canonicalize i c))
              (Char.case_variants c)) cs
  else existsb (fun a => atom_chars_mem a c) cs.

Definition chr_eq (i : bool) (c x : ascii) : bool :=
  Ascii.eqb (Char.canonicalize i c) (Char.canonicalize i x).

(** The states after one or more characters of the class, the longest
    run first (greedy). *)
Fixpoint class_plus (i : bool) (cs : list ClassAtom) (n : nat) (s : string)
  : list MState :=
  match s with
  | String x s' =>
      if class_mem i cs x
      then class_plus i cs (S n) s' ++ [(S n, s')]
      else []
  | EmptyString => []
  end.

(** [pmatch i p st] lists the states in which a match of [p] started in
    state [st] can end, in the order in which the backtracking matcher
    tries them. *)
Fixpoint pmatch (i : bool) (p : Pattern) (st : MState) : list MState :=
  match p with
  | Bol => if Nat.eqb (fst st) 0 then [st] else []
  | Chr c =>
      match snd st with
      | String x s' => if chr_eq i c x then [(S (fst st), s')] else []
      | EmptyString => []
      end
  | Class cs =>
      match snd st with
      | String x s' => if class_mem i cs x then [(S (fst st), s')] else []
      | EmptyString => []
      end
  | ClassPlus cs => class_plus i cs (fst st) (snd st)
  | Opt q => pmatch i q st ++ [st]
  | Eps => [st]
  | Seq q r => flat_map (pmatch i r) (pmatch i q st)
  end.

Definition matches_at (re : t) (st : MState) : bool :=
  match pmatch (ignoreCase re) (source re) st with
  | [] => false
  | _ :: _ => true
  end.

(** The start positions of the search, each with the rest of the input. *)
Fixpoint starts (n : nat) (s : string) : list MState :=
  (n, s) :: match s with
            | String _ s' => starts (S n) s'
            | EmptyString => []
            end.

(** [RegExp.prototype.test] for a regular expression without the [g]
    and [y] flags: the search starts at index 0 and tries every index. *)
Definition test (re : t) (s : string) : bool :=
  existsb (matches_at re) (starts 0 s).

(** A run of pattern characters, and the concatenation of a list of
    terms. *)
Fixpoint chars (s : string) : Pattern :=
  match s with
  | String c s' => Seq (Chr c) (chars s')
  | EmptyString => Eps
  end.

Definition cat (ps : list Pattern) : Pattern := fold_right Seq Eps ps.

End RegExp.

(** ** JavaScript values *)

Module JS.

(** A Number holding an integer, or [NaN]. *)
Inductive Number : Type :=
| NaN
| Int (z : Z).

(** [x || d] for a Number [x] and a non-zero integer literal [d]: [NaN]
    and [0] are the falsy Numbers. *)
Definition or_default (x : Number) (d : Z) : Z :=
  match x with
  | NaN => d
  | Int z => if z =? 0 then d else z
  end.

(** The white space that [parseInt] skips ([StrWhiteSpaceChar]), below
    256: TAB, LF, VT, FF, CR, SP and NBSP. *)
Definition is_white_space (c : ascii) : bool :=
  let n := Char.code c in
  ((9 <=? n) && (n <=? 13) || (n =? 32) || (n =? 160))%N.

Fixpoint trim_start (s : string) : string :=
  match s with
  | String c s' => if is_white_space c then trim_start s' else s
  | EmptyString => EmptyString
  end.

Definition digit_value (c : ascii) : option Z :=
  if Char.is_digit c then Some (Z.of_N (Char.code c) - 48)
  else if Char.is_lower c then Some (Z.of_N (Char.code c) - 87)
  else if Char.is_upper c then Some (Z.of_N (Char.code c) - 55)
  else None.

Definition radix_digit (R : Z) (c : ascii) : option Z :=
  match digit_value c with
  | Some d => if d <? R then Some d else None
  | None => None
  end.

(** The value of the longest prefix of [s] made of radix-[R] digits,
    [acc] being the value of the digits read so far ([None]: none yet). *)
Fixpoint digits (R : Z) (s : string) (acc : option Z) : option Z :=
  match s with
  | String c s' =>
      match radix_digit R c with
      | Some d => digits R s' (Some (R * default 0 acc + d))
      | None => acc
      end
  | EmptyString => acc
  end.

(** [parseInt(string)] with no radix argument.  The result is the integer
    that the digits denote; the Number that JavaScript returns is the
    nearest double, which is that integer up to 2^53 and is zero or [NaN]
    in the same cases. *)
Definition parseInt (input : string) : Number :=
  let s := trim_start input in
  let '(sign, s) :=
    match s with
    | String "-" s' => (-1, s')
    | String "+" s' => (1, s')
    | _ => (1, s)
    end in
  let '(R, s) :=
    match s with
    | String "0" (String "x" s') => (16, s')
    | String "0" (String "X" s') => (16, s')
    | _ => (10, s)
    end in
  match digits R s None with
  | None => NaN
  | Some m => Int (sign * m)
  end.

(** The decimal numeral of a non-negative integer, as by a template
    literal. *)
Definition string_of_nat_number (n : N) : string :=
  NilZero.string_of_uint (N.to_uint n).

(** An [Error] object, and [Error.prototype.toString]. *)
Record Error : Type := mkError { name : string; message : string }.

Definition new_Error (msg : string) : Error :=
  {| name := "Error"; message := msg |}.

Definition Error_toString (e : Error) : string :=
  if String.eqb (name e) "" then message e
  else if String.eqb (message e) "" then name e
  else name e ++ ": " ++ message e.

End JS.

(** ** The request *)

(** A value of [req.query]: [string | string[] | undefined]. *)
Inductive QueryValue : Type :=
| QUndefined
| QString (s : string)
| QArray (l : list string).

Record Query : Type := mkQuery {
  q_url : QueryValue;
  q_fallback : QueryValue;
  q_pixelDensity : QueryValue;
  q_format : QueryValue;
  q_quality : QueryValue
}.

(** [ToBoolean]: [undefined] and the empty string are falsy, an array is
    truthy. *)
Definition truthy (v : QueryValue) : bool :=
  match v with
  | QUndefined => false
  | QString s => negb (String.eqb s "")
  | QArray _ => true
  end.

(** [ToString]: an array is joined with commas. *)
Definition ToString (v : QueryValue) : string :=
  match v with
  | QUndefined => "undefined"
  | QString s => s
  | QArray l => String.concat "," l
  end.

(** ** The environment and the allow-list *)

(** [process.env.NODE_ENV]: a string, or undefined. *)
Definition NodeEnv : Type := option string.

Import RegExp.

Definition okpc_app : RegExp.t :=           (* /^https:\/\/([\w-]+\.)?okpc\.app\//i *)
  RegExp.mk
    (cat [Bol; chars "https://";
          Opt (cat [ClassPlus [ClassWord; ClassChar "-"]; Chr "."]);
          chars "okpc.app/"])
    true.

Definition okpc_vercel_app : RegExp.t :=    (* /^https:\/\/[\w-]+-okpc\.vercel\.app\//i *)
  RegExp.mk
    (cat [Bol; chars "https://";
          ClassPlus [ClassWord; ClassChar "-"];
          chars "-okpc.vercel.app/"])
    true.

Definition localhost : RegExp.t :=          (* /^http:\/\/localhost(:\d+)?\//i *)
  RegExp.mk
    (cat [Bol; chars "http://localhost";
          Opt (cat [Chr ":"; ClassPlus [ClassDigit]]);
          Chr "/"])
    true.

(** The module-level array, after the conditional [push] that runs when
    the module is loaded. *)
Definition allowedHostnames (node_env : NodeEnv) : list RegExp.t :=
  [okpc_app; okpc_vercel_app]
  ++ (if bool_decide (node_env = Some "production") then [] else [localhost]).

Definition allowedFormats : list string := ["png"; "jpeg"; "webp"].

(** [values.includes(value)] for an array of strings: a value that is not
    a string equals none of them. *)
Definition includes (values : list string) (value : QueryValue) : bool :=
  match value with
  | QString s => existsb (String.eqb s) values
  | _ => false
  end.

(** ** The browser and the response *)

Definition Browser : Type := nat.
Definition Page : Type := nat.
Definition ElementHandle : Type := nat.
Definition Buffer : Type := list Byte.byte.

Record LaunchOptions : Type := mkLaunchOptions {
  lo_executablePath : option string;
  lo_args : list string;
  lo_headless : bool;
  lo_ignoreHTTPSErrors : bool
}.

Record Viewport : Type := mkViewport {
  vp_width : Z;
  vp_height : Z;
  vp_deviceScaleFactor : Z
}.

Record ScreenshotOptions : Type := mkScreenshotOptions {
  so_type : string;
  so_quality : option Z          (* [None]: undefined *)
}.

(** The outcome of an awaited call: a value, or a thrown [Error]. *)
Inductive Result (A : Type) : Type :=
| Ok (a : A)
| Err (e : JS.Error).
Arguments Ok {A} a.
Arguments Err {A} e.

(** What [chrome-aws-lambda] and [puppeteer] do for one request. *)
Record World : Type := mkWorld {
  chromium_executablePath : Result (option string);
  chromium_args : list string;
  chromium_headless : bool;
  import_puppeteer : Result unit;
  puppeteer_launch : LaunchOptions -> Result Browser;
  chromium_puppeteer_launch : LaunchOptions -> Result Browser;
  browser_newPage : Browser -> Result Page;
  page_setViewport : Page -> Viewport -> Result unit;
  page_goto : Page -> string -> Result unit;
  page_waitForNetworkIdle : Page -> Result unit;
  page_waitForSelector : Page -> string -> Z -> Result unit;
  page_query : Page -> string -> Result (option ElementHandle);
  element_screenshot : ElementHandle -> ScreenshotOptions -> Result Buffer;
  browser_close : Browser -> Result unit
}.

(** The calls made on the browser side, in the order they are made. *)
Inductive Call : Type :=
| CExecutablePath
| CImportPuppeteer
| CPuppeteerLaunch (o : LaunchOptions)
| CChromiumLaunch (o : LaunchOptions)
| CNewPage (b : Browser)
| CSetViewport (p : Page) (v : Viewport)
| CSetDefaultNavigationTimeout (p : Page) (ms : Z)
| CGoto (p : Page) (url : string)
| CWaitForNetworkIdle (p : Page)
| CWaitForSelector (p : Page) (selector : string) (timeout : Z)
| CQuery (p : Page) (selector : string)
| CScreenshot (e : ElementHandle) (o : ScreenshotOptions)
| CClose (b : Browser).

(** The object literal [{ error: { code, message } }]; [message] is
    [None] when the literal has no such field. *)
Record ErrorBody : Type := mkErrorBody {
  eb_code : string;
  eb_message : option string
}.

(** What ends a response: [res.json], [res.send] or [res.redirect]. *)
Inductive Sent : Type :=
| SentJson (body : ErrorBody)
| SentBuffer (body : Buffer)
| SentRedirect (url : string).

(** The state a run of the handler goes through: its local variable
    [browser], the calls made so far, and what was done on [res] and
    [console]. *)
Record State : Type := mkState {
  browser : option Browser;
  calls : list Call;
  statusCode : option Z;           (* [None]: [res.status] was not called *)
  headers : gmap string string;
  sent : list Sent;
  console : list (string * JS.Error)
}.

Definition initial : State :=
  {| browser := None; calls := []; statusCode := None; headers := ∅;
     sent := []; console := [] |}.

(** ** The handler's monad: state and exceptions *)

Inductive Completion (A : Type) : Type :=
| Normal (a : A)
| Throw (e : JS.Error).
Arguments Normal {A} a.
Arguments Throw {A} e.

Definition M (A : Type) : Type := State -> Completion A * State.

Definition ret {A} (a : A) : M A := fun s => (Normal a, s).

Definition bind {A B} (m : M A) (k : A -> M B) : M B :=
  fun s =>
    match m s with
    | (Normal a, s') => k a s'
    | (Throw e, s') => (Throw e, s')
    end.

Definition throw {A} (e : JS.Error) : M A := fun s => (Throw e, s).

Declare Scope handler_scope.
Delimit Scope handler_scope with handler.
Notation "x <- m ;; k" := (bind m (fun x => k))
  (at level 100, m at next level, right associativity) : handler_scope.
Notation "m ;; k" := (bind m (fun _ => k))
  (at level 100, right associativity) : handler_scope.

(** [try { body } catch (error) { handler } finally { finalizer }]: the
    finalizer runs after the body, or after the catch block when the body
    throws, also when the catch block itself throws; a throwing finalizer
    replaces the completion. *)
Definition try_catch_finally {A} (body : M A) (catch : JS.Error -> M A)
    (finalizer : M unit) : M A :=
  fun s =>
    let '(c, s1) :=
      match body s with
      | (Normal a, s') => (Normal a, s')
      | (Throw e, s') => catch e s'
      end in
    match finalizer s1 with
    | (Normal _, s2) => (c, s2)
    | (Throw e, s2) => (Throw e, s2)
    end.

(** [await] of a call on the browser side: the call is recorded and its
    outcome comes from the world. *)
Definition await {A} (c : Call) (r : Result A) : M A :=
  fun s =>
    let s' := {| browser := browser s; calls := calls s ++ [c];
                 statusCode := statusCode s; headers := headers s;
                 sent := sent s; console := console s |} in
    match r with
    | Ok a => (Normal a, s')
    | Err e => (Throw e, s')
    end.

(** A call that returns no promise and does not throw. *)
Definition call (c : Call) : M unit := await c (Ok tt).

Definition set_browser (b : Browser) : M unit :=
  fun s => (Normal tt,
            {| browser := Some b; calls := calls s;
               statusCode := statusCode s; headers := headers s;
               sent := sent s; console := console s |}).

Definition get_browser : M (option Browser) := fun s => (Normal (browser s), s).

Definition res_status (n : Z) : M unit :=
  fun s => (Normal tt,
            {| browser := browser s; calls := calls s;
               statusCode := Some n; headers := headers s;
               sent := sent s; console := console s |}).

Definition res_setHeader (k v : string) : M unit :=
  fun s => (Normal tt,
            {| browser := browser s; calls := calls s;
               statusCode := statusCode s; headers := <[k := v]> (headers s);
               sent := sent s; console := console s |}).

Definition res_end (x : Sent) : M unit :=
  fun s => (Normal tt,
            {| browser := browser s; calls := calls s;
               statusCode := statusCode s; headers := headers s;
               sent := sent s ++ [x]; console := console s |}).

Definition res_json (b : ErrorBody) : M unit := res_end (SentJson b).
Definition res_send (b : Buffer) : M unit := res_end (SentBuffer b).
Definition res_redirect (url : string) : M unit := res_end (SentRedirect url).

Definition console_error (msg : string) (e : JS.Error) : M unit :=
  fun s => (Normal tt,
            {| browser := browser s; calls := calls s;
               statusCode := statusCode s; headers := headers s;
               sent := sent s; console := console s ++ [(msg, e)] |}).

(** ** The handler *)

Local Open Scope handler_scope.

(** [!executablePath]. *)
Definition no_executablePath (p : option string) : bool :=
  match p with
  | None => true
  | Some s => String.eqb s ""
  end.

Definition getBrowserInstance (w : World) : M Browser :=
  executablePath <- await CExecutablePath (chromium_executablePath w) ;;
  if no_executablePath executablePath then
    (* running locally *)
    _ <- await CImportPuppeteer (import_puppeteer w) ;;
    let o := {| lo_executablePath := None;
                lo_args := chromium_args w;
                lo_headless := true;
                lo_ignoreHTTPSErrors := true |} in
    await (CPuppeteerLaunch o) (puppeteer_launch w o)
  else
    let o := {| lo_executablePath := executablePath;
                lo_args := chromium_args w;
                lo_headless := chromium_headless w;
                lo_ignoreHTTPSErrors := true |} in
    await (CChromiumLaunch o) (chromium_puppeteer_launch w o).

Definition selector : string := "#opengraph-image".

Definition cache_control : string :=
  "s-maxage=" ++ JS.string_of_nat_number (60 * 60 * 8)
  ++ ", stale-while-revalidate=" ++ JS.string_of_nat_number (60 * 60 * 24).

(** [typeof req.query.fallback === "string" ? req.query.fallback : null]. *)
Definition fallback_of (q : Query) : option string :=
  match q_fallback q with
  | QString s => Some s
  | _ => None
  end.

Definition pixelDensity_of (q : Query) : Z :=
  JS.or_default (JS.parseInt (ToString (q_pixelDensity q))) 1.

Definition format_of (q : Query) : string :=
  if includes allowedFormats (q_format q) then ToString (q_format q) else "png".

Definition quality_of (q : Query) : Z :=
  JS.or_default (JS.parseInt (ToString (q_quality q))) 70.

(** The body of the [try] block. *)
Definition render (w : World) (url : QueryValue) (pixelDensity : Z)
    (format : string) (quality : Z) : M unit :=
  b <- getBrowserInstance w ;;
  set_browser b ;;
  page <- await (CNewPage b) (browser_newPage w b) ;;
  let v := {| vp_width := 1280; vp_height := 720;
              vp_deviceScaleFactor := pixelDensity |} in
  await (CSetViewport page v) (page_setViewport w page v) ;;
  call (CSetDefaultNavigationTimeout page (1000 * 10)) ;;
  await (CGoto page (ToString url)) (page_goto w page (ToString url)) ;;
  await (CWaitForNetworkIdle page) (page_waitForNetworkIdle w page) ;;
  await (CWaitForSelector page selector 500)
        (page_waitForSelector w page selector 500) ;;
  element <- await (CQuery page selector) (page_query w page selector) ;;
  match element with
  | None => throw (JS.new_Error "No #opengraph-image element found at path")
  | Some element =>
      let o := {| so_type := format;
                  so_quality := if String.eqb format "png" then None
                                else Some quality |} in
      imageBuffer <- await (CScreenshot element o) (element_screenshot w element o) ;;
      res_setHeader "Cache-Control" cache_control ;;
      res_setHeader "Content-Type" ("image/" ++ format) ;;
      res_send imageBuffer
  end.

(** The response of the [catch] block when there is no fallback. *)
Definition unexpected_error (error : JS.Error) : M unit :=
  res_status 500 ;;
  res_json {| eb_code := "UNEXPECTED_ERROR";
              eb_message := Some (JS.Error_toString error) |}.

(** The [catch] block; [if (fallback)] takes [null] and the empty string
    as false. *)
Definition on_error (fallback : option string) (error : JS.Error) : M unit :=
  console_error "error while generating opengraph image" error ;;
  match fallback with
  | Some f => if negb (String.eqb f "") then res_redirect f
              else unexpected_error error
  | None => unexpected_error error
  end.

(** The [finally] block. *)
Definition cleanup (w : World) : M unit :=
  b <- get_browser ;;
  match b with
  | Some b => await (CClose b) (browser_close w b)
  | None => ret tt
  end.

Definition url_allowed (node_env : NodeEnv) (url : QueryValue) : bool :=
  existsb (fun hostname => RegExp.test hostname (ToString url))
          (allowedHostnames node_env).

Definition handler (node_env : NodeEnv) (w : World) (q : Query) : M unit :=
  let url := q_url q in
  if negb (truthy url) then
    res_status 400 ;;
    res_json {| eb_code := "MISSING_URL"; eb_message := None |}
  else if negb (url_allowed node_env url) then
    res_status 400 ;;
    res_json {| eb_code := "INVALID_URL"; eb_message := None |}
  else
    let fallback := fallback_of q in
    let pixelDensity := pixelDensity_of q in
    let format := format_of q in
    let quality := quality_of q in
    try_catch_finally
      (render w url pixelDensity format quality)
      (on_error fallback)
      (cleanup w).

(** One request, from the initial state. *)
Definition run (node_env : NodeEnv) (w : World) (q : Query)
  : Completion unit * State :=
  handler node_env w q initial.

Local Close Scope handler_scope.


(** ** Counting browsers *)

Definition is_ok {A} (r : Result A) : bool :=
  match r with
  | Ok _ => true
  | Err _ => false
  end.

Definition is_close (c : Call) : bool :=
  match c with
  | CClose _ => true
  | _ => false
  end.

Definition is_launch (c : Call) : bool :=
  match c with
  | CPuppeteerLaunch _ | CChromiumLaunch _ => true
  | _ => false
  end.

(** A launch call that gave a browser. *)
Definition launched (w : World) (c : Call) : bool :=
  match c with
  | CPuppeteerLaunch o => is_ok (puppeteer_launch w o)
  | CChromiumLaunch o => is_ok (chromium_puppeteer_launch w o)
  | _ => false
  end.

Definition close_count (cs : list Call) : nat := length (List.filter is_close cs).
Definition launch_count (cs : list Call) : nat := length (List.filter is_launch cs).
Definition created_count (w : World) (cs : list Call) : nat :=
  length (List.filter (launched w) cs).

(** Whether the request gets past the two checks on [url]. *)
Definition validated (node_env : NodeEnv) (q : Query) : bool :=
  truthy (q_url q) && url_allowed node_env (q_url q).

(** The completion of the [try] block of a validated request. *)
Definition pipeline (w : World) (q : Query) : Completion unit * State :=
  render w (q_url q) (pixelDensity_of q) (format_of q) (quality_of q) initial.

(** The completion of [getBrowserInstance]. *)
Definition launch_outcome (w : World) : Completion Browser :=
  fst (getBrowserInstance w initial).

(** The response bodies of the three error answers. *)
Definition MISSING_URL : ErrorBody :=
  {| eb_code := "MISSING_URL"; eb_message := None |}.
Definition INVALID_URL : ErrorBody :=
  {| eb_code := "INVALID_URL"; eb_message := None |}.
Definition UNEXPECTED_ERROR (e : JS.Error) : ErrorBody :=
  {| eb_code := "UNEXPECTED_ERROR"; eb_message := Some (JS.Error_toString e) |}.

(** What the [catch] block answers. *)
Definition failure_answer (q : Query) (e : JS.Error) (s : State) : Prop :=
  match fallback_of q with
  | Some f =>
      if String.eqb f "" then
        statusCode s = Some 500 /\ sent s = [SentJson (UNEXPECTED_ERROR e)]
      else statusCode s = None /\ sent s = [SentRedirect f]
  | None => statusCode s = Some 500 /\ sent s = [SentJson (UNEXPECTED_ERROR e)]
  end.

(** ** What a pattern matches

    The words of a pattern, as a relation: [derive i p n w] when [p] can
    match the word [w] from index [n] on. *)

Fixpoint all_chars (f : ascii -> bool) (s : string) : bool :=
  match s with
  | String c s' => f c && all_chars f s'
  | EmptyString => true
  end.

Inductive derive (i : bool) : Pattern -> nat -> string -> Prop :=
| derive_Bol : derive i Bol 0 ""
| derive_Chr c n x :
    chr_eq i c x = true -> derive i (Chr c) n (String x "")
| derive_Class cs n x :
    class_mem i cs x = true -> derive i (Class cs) n (String x "")
| derive_ClassPlus cs n x w :
    all_chars (class_mem i cs) (String x w) = true ->
    derive i (ClassPlus cs) n (String x w)
| derive_Opt_some p n w : derive i p n w -> derive i (Opt p) n w
| derive_Opt_none p n : derive i (Opt p) n ""
| derive_Eps n : derive i Eps n ""
| derive_Seq p q n v w :
    derive i p n v -> derive i q (n + String.length v) w ->
    derive i (Seq p q) n (v ++ w).

(** A string with its characters in canonical form, and the number of
    ['/'] in a string. *)
Fixpoint fold_case (s : string) : string :=
  match s with
  | String c s' => String (Char.canonicalize true c) (fold_case s')
  | EmptyString => EmptyString
  end.

Fixpoint slashes (s : string) : nat :=
  match s with
  | String c s' => ((if Ascii.eqb c "/" then 1 else 0) + slashes s')%nat
  | EmptyString => 0%nat
  end.

(** The characters of [[\w-]]; the letters, digits and hyphen of a host
    name label are among them. *)
Definition is_label_char (c : ascii) : bool :=
  Char.is_word c || Ascii.eqb c "-".

(** A pattern none of whose characters and classes takes a ['/'], under
    [ignoreCase]. *)
Fixpoint no_slash (p : Pattern) : bool :=
  match p with
  | Bol | Eps => true
  | Chr c => negb (chr_eq true c "/")
  | Class cs | ClassPlus cs => negb (class_mem true cs "/")
  | Opt q => no_slash q
  | Seq q r => no_slash q && no_slash r
  end.

(** All the code units below 256. *)
Definition all_ascii : list ascii := List.map ascii_of_nat (seq 0 256).

(** ** The script of a request

    The launch options of the two branches of [getBrowserInstance], and
    the calls that follow a launch when nothing fails, for the browser,
    the page and the element that the world hands out. *)

Definition local_options (w : World) : LaunchOptions :=
  {| lo_executablePath := None; lo_args := chromium_args w;
     lo_headless := true; lo_ignoreHTTPSErrors := true |}.

Definition serverless_options (w : World) (path : string) : LaunchOptions :=
  {| lo_executablePath := Some path; lo_args := chromium_args w;
     lo_headless := chromium_headless w; lo_ignoreHTTPSErrors := true |}.

Definition page_script (q : Query) (b : Browser) (p : Page)
    (el : ElementHandle) : list Call :=
  [CNewPage b;
   CSetViewport p {| vp_width := 1280; vp_height := 720;
                     vp_deviceScaleFactor := pixelDensity_of q |};
   CSetDefaultNavigationTimeout p 10000;
   CGoto p (ToString (q_url q));
   CWaitForNetworkIdle p;
   CWaitForSelector p "#opengraph-image" 500;
   CQuery p "#opengraph-image";
   CScreenshot el {| so_type := format_of q;
                     so_quality := if String.eqb (format_of q) "png"
                                   then None else Some (quality_of q) |}].

(** The two ways a launch is reached. *)
Definition launch_script (w : World) (l : list Call) : Prop :=
  l = [CExecutablePath; CImportPuppeteer; CPuppeteerLaunch (local_options w)]
  \/ exists path, path <> "" /\
        l = [CExecutablePath; CChromiumLaunch (serverless_options w path)].

(** Whether the world lets a call go through: its promise resolves, and
    for the lookup of the element it resolves to an element, since the
    handler throws on [null]. *)
Definition succeeds (w : World) (c : Call) : bool :=
  match c with
  | CExecutablePath => is_ok (chromium_executablePath w)
  | CImportPuppeteer => is_ok (import_puppeteer w)
  | CPuppeteerLaunch o => is_ok (puppeteer_launch w o)
  | CChromiumLaunch o => is_ok (chromium_puppeteer_launch w o)
  | CNewPage b => is_ok (browser_newPage w b)
  | CSetViewport p v => is_ok (page_setViewport w p v)
  | CSetDefaultNavigationTimeout _ _ => true
  | CGoto p u => is_ok (page_goto w p u)
  | CWaitForNetworkIdle p => is_ok (page_waitForNetworkIdle w p)
  | CWaitForSelector p x t => is_ok (page_waitForSelector w p x t)
  | CQuery p x => if page_query w p x is Ok (Some _) then true else false
  | CScreenshot el o => is_ok (element_screenshot w el o)
  | CClose b => is_ok (browser_close w b)
  end.

(** The calls of a script that are made when it is followed up to its
    first call that does not go through, that call included. *)
Fixpoint until_failure (ok : Call -> bool) (script : list Call) : list Call :=
  match script with
  | [] => []
  | c :: rest => c :: (if ok c then until_failure ok rest else [])
  end.

(** The message logged by the [catch] block. *)
Definition log_message : string := "error while generating opengraph image".

(** ** Sample worlds and requests *)

(** A serverless world in which every step succeeds. *)
Definition world_ok : World := {|
  chromium_executablePath := Ok (Some "/tmp/chromium");
  chromium_args := ["--no-sandbox"];
  chromium_headless := true;
  import_puppeteer := Ok tt;
  puppeteer_launch := fun _ => Ok 1%nat;
  chromium_puppeteer_launch := fun _ => Ok 2%nat;
  browser_newPage := fun _ => Ok 3%nat;
  page_setViewport := fun _ _ => Ok tt;
  page_goto := fun _ _ => Ok tt;
  page_waitForNetworkIdle := fun _ => Ok tt;
  page_waitForSelector := fun _ _ _ => Ok tt;
  page_query := fun _ _ => Ok (Some 4%nat);
  element_screenshot := fun _ _ => Ok [Byte.x89; Byte.x50];
  browser_close := fun _ => Ok tt |}.

(** The steps at which the pipeline can fail. *)
Inductive Step : Type :=
| AtLaunch | AtNewPage | AtSetViewport | AtGoto | AtNetworkIdle
| AtSelectorWait | AtMissingElement | AtScreenshot.

(** The world in which the given step fails with [e] (for
    [AtMissingElement]: the page has no such element) and every other
    step succeeds. *)
Definition world_failing (st : Step) (e : JS.Error) : World := {|
  chromium_executablePath := Ok (Some "/tmp/chromium");
  chromium_args := ["--no-sandbox"];
  chromium_headless := true;
  import_puppeteer := Ok tt;
  puppeteer_launch := fun _ => Ok 1%nat;
  chromium_puppeteer_launch :=
    fun _ => if st is AtLaunch then Err e else Ok 2%nat;
  browser_newPage := fun _ => if st is AtNewPage then Err e else Ok 3%nat;
  page_setViewport := fun _ _ => if st is AtSetViewport then Err e else Ok tt;
  page_goto := fun _ _ => if st is AtGoto then Err e else Ok tt;
  page_waitForNetworkIdle :=
    fun _ => if st is AtNetworkIdle then Err e else Ok tt;
  page_waitForSelector :=
    fun _ _ _ => if st is AtSelectorWait then Err e else Ok tt;
  page_query :=
    fun _ _ => if st is AtMissingElement then Ok None else Ok (Some 4%nat);
  element_screenshot :=
    fun _ _ => if st is AtScreenshot then Err e else Ok [Byte.x89; Byte.x50];
  browser_close := fun _ => Ok tt |}.

Definition TimeoutError : JS.Error :=
  {| JS.name := "TimeoutError";
     JS.message := "Navigation timeout of 10000 ms exceeded" |}.

(** A request for a page of the site, with the defaults. *)
Definition query_of_url (url : string) : Query :=
  {| q_url := QString url; q_fallback := QUndefined;
     q_pixelDensity := QUndefined; q_format := QUndefined;
     q_quality := QUndefined |}.

Definition with_fallback (f : string) (q : Query) : Query :=
  {| q_url := q_url q; q_fallback := QString f;
     q_pixelDensity := q_pixelDensity q; q_format := q_format q;
     q_quality := q_quality q |}.

Definition with_pixelDensity (v : string) (q : Query) : Query :=
  {| q_url := q_url q; q_fallback := q_fallback q;
     q_pixelDensity := QString v; q_format := q_format q;
     q_quality := q_quality q |}.

Definition with_format (v : string) (q : Query) : Query :=
  {| q_url := q_url q; q_fallback := q_fallback q;
     q_pixelDensity := q_pixelDensity q; q_format := QString v;
     q_quality := q_quality q |}.

Definition with_quality (v : string) (q : Query) : Query :=
  {| q_url := q_url q; q_fallback := q_fallback q;
     q_pixelDensity := q_pixelDensity q; q_format := q_format q;
     q_quality := QString v |}.

Definition sample_query : Query := query_of_url "https://okpc.app/gallery/42".

(** The world in which every step succeeds and closing the browser
    fails with [e]. *)
Definition world_close_failing (e : JS.Error) : World := {|
  chromium_executablePath := chromium_executablePath world_ok;
  chromium_args := chromium_args world_ok;
  chromium_headless := chromium_headless world_ok;
  import_puppeteer := import_puppeteer world_ok;
  puppeteer_launch := puppeteer_launch world_ok;
  chromium_puppeteer_launch := chromium_puppeteer_launch world_ok;
  browser_newPage := browser_newPage world_ok;
  page_setViewport := page_setViewport world_ok;
  page_goto := page_goto world_ok;
  page_waitForNetworkIdle := page_waitForNetworkIdle world_ok;
  page_waitForSelector := page_waitForSelector world_ok;
  page_query := page_query world_ok;
  element_screenshot := element_screenshot world_ok;
  browser_close := fun _ => Err e |}.

Definition is_normal {A} (c : Completion A) : bool :=
  if c is Normal _ then true else false.

(** * Properties *)

(** ** The pipeline, case by case *)

(** Case analysis on the next outcome that the world decides. *)
Ltac world_step :=
  match goal with
  | |- context [match ?r with Ok _ => _ | Err _ => _ end] =>
      let E := fresh "E" in destruct r eqn:E; cbn
  | |- context [no_executablePath ?p] =>
      let E := fresh "P" in destruct (no_executablePath p) eqn:E; cbn
  | |- context [match ?o with Some _ => _ | None => _ end] =>
      let E := fresh "O" in destruct o eqn:E; cbn
  end.

(** Rewrite with the outcomes fixed so far. *)
Ltac use_outcomes :=
  repeat match goal with
         | H : ?l = Ok _ |- context [?l] => rewrite H
         | H : ?l = Err _ |- context [?l] => rewrite H
         end.

Ltac run_pipeline :=
  unfold pipeline, render, getBrowserInstance, bind, await, call, set_browser,
    throw, res_setHeader, res_send, res_end, ret; cbn;
  repeat world_step.

(** What the [try] block leaves behind: nothing on the response when it
    throws, the image and its two headers when it completes; no browser
    is closed inside it, and its local [browser] is set exactly when a
    launch gave one. *)
Lemma pipeline_spec (w : World) (q : Query) :
  let '(c, s) := pipeline w q in
  statusCode s = None /\ console s = [] /\
  close_count (calls s) = 0%nat /\
  created_count w (calls s) = (if browser s is Some _ then 1 else 0)%nat /\
  browser s = (if launch_outcome w is Normal b then Some b else None) /\
  match c with
  | Throw _ => sent s = [] /\ headers s = ∅
  | Normal _ =>
      (exists b, browser s = Some b) /\
      (exists img, sent s = [SentBuffer img]) /\
      headers s = <["Content-Type" := "image/" ++ format_of q]>
                    (<["Cache-Control" := cache_control]> ∅)
  end.
Proof.
  unfold launch_outcome. run_pipeline.
  all: unfold created_count; cbn; use_outcomes; cbn; eauto 10.
Qed.

(** ** The handler around the pipeline *)

Lemma run_missing (node_env : NodeEnv) (w : World) (q : Query) :
  truthy (q_url q) = false ->
  run node_env w q =
    (Normal tt,
     {| browser := None; calls := []; statusCode := Some 400; headers := ∅;
        sent := [SentJson MISSING_URL]; console := [] |}).
Proof. intros H. unfold run, handler. rewrite H. reflexivity. Qed.

Lemma run_invalid (node_env : NodeEnv) (w : World) (q : Query) :
  truthy (q_url q) = true ->
  url_allowed node_env (q_url q) = false ->
  run node_env w q =
    (Normal tt,
     {| browser := None; calls := []; statusCode := Some 400; headers := ∅;
        sent := [SentJson INVALID_URL]; console := [] |}).
Proof. intros H1 H2. unfold run, handler. rewrite H1, H2. reflexivity. Qed.

Lemma run_validated (node_env : NodeEnv) (w : World) (q : Query) :
  validated node_env q = true ->
  run node_env w q =
    try_catch_finally
      (render w (q_url q) (pixelDensity_of q) (format_of q) (quality_of q))
      (on_error (fallback_of q)) (cleanup w) initial.
Proof.
  unfold validated. intros [H1 H2]%andb_prop.
  unfold run, handler. rewrite H1, H2. reflexivity.
Qed.

(** The state at the end of a validated request, from the state at the
    end of its [try] block. *)
Lemma run_validated_state (node_env : NodeEnv) (w : World) (q : Query) :
  validated node_env q = true ->
  let s1 := snd (pipeline w q) in
  let s := snd (run node_env w q) in
  calls s = (calls s1 ++ (if browser s1 is Some b then [CClose b] else []))%list /\
  headers s = headers s1 /\
  match fst (pipeline w q) with
  | Normal _ => sent s = sent s1 /\ statusCode s = statusCode s1
  | Throw e => failure_answer q e s
  end.
Proof.
  intros Hv. rewrite (run_validated _ _ _ Hv).
  pose proof (pipeline_spec w q) as Hp.
  unfold try_catch_finally. fold (pipeline w q).
  destruct (pipeline w q) as [c s1]. cbn.
  destruct Hp as (Hst & Hco & _ & _ & _ & Hc).
  destruct c as [[]|e].
  - unfold cleanup, bind, get_browser, await, ret.
    destruct (browser s1) as [b|]; [destruct (browser_close w b)|]; cbn;
      rewrite ?app_nil_r; auto.
  - destruct Hc as [Hs Hh]. unfold failure_answer.
    unfold on_error, unexpected_error, bind, console_error, res_redirect,
      res_json, res_end, res_status, cleanup, get_browser, await, ret.
    destruct (fallback_of q) as [f|]; [destruct (String.eqb f "")|]; cbn;
      (destruct (browser s1) as [b|]; [destruct (browser_close w b)|]; cbn);
      rewrite ?Hs, ?Hst, ?app_nil_r; auto.
Qed.

Lemma close_count_app (l1 l2 : list Call) :
  close_count (l1 ++ l2) = (close_count l1 + close_count l2)%nat.
Proof. unfold close_count. by rewrite List.filter_app, length_app. Qed.

Lemma created_count_app (w : World) (l1 l2 : list Call) :
  created_count w (l1 ++ l2)
  = (created_count w l1 + created_count w l2)%nat.
Proof. unfold created_count. by rewrite List.filter_app, length_app. Qed.

(** ** Browser lifecycle *)

(** C1. On every request the browser is closed as many times as a browser
    was created: never for a request that fails validation (nothing is
    called at all), and exactly once, as the last call and on the browser
    that the launch gave, for a validated request whose launch succeeds,
    whatever happens afterwards in the pipeline. *)
Theorem browser_closed_as_often_as_created
    (node_env : NodeEnv) (w : World) (q : Query) :
  let s := snd (run node_env w q) in
  close_count (calls s) = created_count w (calls s) /\
  created_count w (calls s) =
    (if validated node_env q
     then if launch_outcome w is Normal _ then 1 else 0
     else 0)%nat /\
  (if validated node_env q
   then if launch_outcome w is Normal b
        then last (calls s) = Some (CClose b)
        else True
   else calls s = []).
Proof.
  destruct (validated node_env q) eqn:Hv.
  - pose proof (run_validated_state node_env w q Hv) as (Hc & _ & _).
    pose proof (pipeline_spec w q) as Hp.
    destruct (pipeline w q) as [c s1]. cbn in Hc. cbn zeta.
    destruct Hp as (_ & _ & Hcl & Hcr & Hb & _).
    rewrite Hc, close_count_app, created_count_app, Hcl, Hcr, Hb.
    destruct (launch_outcome w) as [b|e]; cbn.
    + rewrite last_snoc. auto.
    + auto.
  - unfold validated in Hv. apply andb_false_iff in Hv.
    destruct (truthy (q_url q)) eqn:Ht.
    + destruct Hv as [Hv|Hv]; [discriminate|].
      rewrite (run_invalid _ _ _ Ht Hv). cbn. auto.
    + rewrite (run_missing _ _ _ Ht). cbn. auto.
Qed.

(** The three ways out of a validated request whose launch succeeds, and
    a launch that fails: one browser and one close, or none of either. *)
Example exit_paths_close_count :
  let closes w q := close_count (calls (snd (run None w q))) in
  let creates w q := created_count w (calls (snd (run None w q))) in
  let failing := world_failing AtScreenshot TimeoutError in
  (closes world_ok sample_query, creates world_ok sample_query)
    = (1, 1)%nat /\
  (closes failing (with_fallback "https://okpc.app/og.png" sample_query),
   creates failing (with_fallback "https://okpc.app/og.png" sample_query))
    = (1, 1)%nat /\
  (closes failing sample_query, creates failing sample_query) = (1, 1)%nat /\
  (closes (world_failing AtLaunch TimeoutError) sample_query,
   creates (world_failing AtLaunch TimeoutError) sample_query) = (0, 0)%nat.
Proof. vm_compute. auto. Qed.

(** ** Answers *)

(** Each of the steps of the pipeline can make the [try] block throw. *)
Lemma pipeline_fails_at (st : Step) (e : JS.Error) (q : Query) :
  fst (pipeline (world_failing st e) q)
  = Throw (if st is AtMissingElement
           then JS.new_Error "No #opengraph-image element found at path"
           else e).
Proof. destruct st; reflexivity. Qed.

Lemma pipeline_world_ok (q : Query) : fst (pipeline world_ok q) = Normal tt.
Proof. reflexivity. Qed.

(** C2. A validated request whose pipeline throws [e] is answered by a
    redirect to the fallback, and nothing else, when the fallback
    parameter is a non-empty string; otherwise by status 500 and the body
    [{error: {code: "UNEXPECTED_ERROR", message: e.toString()}}]. *)
Theorem failure_redirects_or_500
    (node_env : NodeEnv) (w : World) (q : Query) (e : JS.Error) :
  validated node_env q = true ->
  fst (pipeline w q) = Throw e ->
  let s := snd (run node_env w q) in
  match q_fallback q with
  | QString (String c f) =>
      sent s = [SentRedirect (String c f)] /\ statusCode s = None
  | _ =>
      statusCode s = Some 500 /\
      sent s = [SentJson {| eb_code := "UNEXPECTED_ERROR";
                            eb_message := Some (JS.Error_toString e) |}]
  end.
Proof.
  intros Hv He.
  pose proof (run_validated_state node_env w q Hv) as (_ & _ & Ha).
  rewrite He in Ha. unfold failure_answer, fallback_of in Ha. cbn zeta.
  destruct (q_fallback q) as [|[|c f]|l]; cbn in Ha; tauto.
Qed.

Lemma failure_redirects_or_500_witness :
  let q := with_fallback "https://example.com/default.png" sample_query in
  let w := world_failing AtMissingElement TimeoutError in
  validated None q = true /\
  fst (pipeline w q)
    = Throw (JS.new_Error "No #opengraph-image element found at path") /\
  sent (snd (run None w q))
    = [SentRedirect "https://example.com/default.png"] /\
  statusCode (snd (run None w q)) = None.
Proof.
  split; [reflexivity|]. split; [reflexivity|].
  exact (failure_redirects_or_500 None
           (world_failing AtMissingElement TimeoutError)
           (with_fallback "https://example.com/default.png" sample_query)
           (JS.new_Error "No #opengraph-image element found at path")
           eq_refl eq_refl).
Defined.

(** C3. A request without [url] is answered by status 400 and
    [{error: {code: "MISSING_URL"}}]; the handler returns without a
    single call on the browser side, so without a launch. *)
Theorem missing_url_answer (node_env : NodeEnv) (w : World) (q : Query) :
  q_url q = QUndefined ->
  let '(c, s) := run node_env w q in
  c = Normal tt /\
  statusCode s = Some 400 /\
  sent s = [SentJson {| eb_code := "MISSING_URL"; eb_message := None |}] /\
  calls s = [] /\ launch_count (calls s) = 0%nat.
Proof.
  intros Hu. rewrite run_missing by (rewrite Hu; reflexivity).
  cbn. auto.
Qed.

Lemma missing_url_answer_witness :
  let q := {| q_url := QUndefined; q_fallback := QString "https://okpc.app/og.png";
              q_pixelDensity := QString "2"; q_format := QString "jpeg";
              q_quality := QUndefined |} in
  q_url q = QUndefined /\
  let '(c, s) := run (Some "production") world_ok q in
  c = Normal tt /\
  statusCode s = Some 400 /\
  sent s = [SentJson {| eb_code := "MISSING_URL"; eb_message := None |}] /\
  calls s = [] /\ launch_count (calls s) = 0%nat.
Proof.
  split; [reflexivity|].
  exact (missing_url_answer (Some "production") world_ok
           {| q_url := QUndefined; q_fallback := QString "https://okpc.app/og.png";
              q_pixelDensity := QString "2"; q_format := QString "jpeg";
              q_quality := QUndefined |} eq_refl).
Defined.

(** The arguments of the calls of the pipeline. *)
Lemma pipeline_calls (w : World) (q : Query) :
  let s := snd (pipeline w q) in
  let v := {| vp_width := 1280; vp_height := 720;
              vp_deviceScaleFactor := pixelDensity_of q |} in
  let o := {| so_type := format_of q;
              so_quality := if String.eqb (format_of q) "png" then None
                            else Some (quality_of q) |} in
  (forall p v', In (CSetViewport p v') (calls s) -> v' = v) /\
  (forall el o', In (CScreenshot el o') (calls s) -> o' = o) /\
  (forall b p, launch_outcome w = Normal b -> browser_newPage w b = Ok p ->
               In (CSetViewport p v) (calls s)) /\
  (fst (pipeline w q) = Normal tt -> exists el, In (CScreenshot el o) (calls s)) /\
  head (calls s) = Some CExecutablePath.
Proof.
  unfold launch_outcome. run_pipeline.
  all: repeat split; try done; intros; use_outcomes;
    repeat match goal with
           | H : In _ _ |- _ => cbn in H
           | H : _ \/ _ |- _ => destruct H
           | H : False |- _ => destruct H
           | H : Normal _ = Normal _ |- _ => injection H as ->
           | H : Ok _ = Ok _ |- _ => injection H as ->
           | H : _ = CSetViewport _ _ |- _ =>
               first [discriminate H | injection H as <- <-]
           | H : _ = CScreenshot _ _ |- _ =>
               first [discriminate H | injection H as <- <-]
           end;
    try congruence; cbn; eauto 20.
  all: repeat (first [left; congruence | right]).
Qed.

(** The calls of a validated request are those of its [try] block, and
    then the closing of the browser. *)
Lemma run_calls_In (node_env : NodeEnv) (w : World) (q : Query) (c : Call) :
  validated node_env q = true ->
  is_close c = false ->
  In c (calls (snd (run node_env w q))) <-> In c (calls (snd (pipeline w q))).
Proof.
  intros Hv Hc.
  pose proof (run_validated_state node_env w q Hv) as (-> & _).
  rewrite in_app_iff. split; [|auto].
  intros [H|H]; [done|].
  destruct (browser (snd (pipeline w q))); cbn in H; [|done].
  destruct H as [<-|[]]. discriminate Hc.
Qed.

Lemma validated_status (node_env : NodeEnv) (w : World) (q : Query) :
  validated node_env q = true ->
  statusCode (snd (run node_env w q)) <> Some 400.
Proof.
  intros Hv.
  pose proof (run_validated_state node_env w q Hv) as (_ & _ & Ha).
  pose proof (pipeline_spec w q) as Hp.
  destruct (pipeline w q) as [c s1]. cbn in Ha.
  destruct Hp as (Hst & _).
  destruct c.
  - destruct Ha as [_ ->]. by rewrite Hst.
  - unfold failure_answer in Ha.
    destruct (fallback_of q) as [f|]; [destruct (String.eqb f "")|];
      destruct Ha as [-> _]; done.
Qed.

Lemma localhost_allowed_iff (node_env : NodeEnv) :
  In localhost (allowedHostnames node_env) <-> node_env <> Some "production".
Proof.
  unfold allowedHostnames. rewrite in_app_iff.
  case_bool_decide as Hp; cbn; split.
  - intros [[H|[H|[]]]|[]]; discriminate H.
  - intros H. by destruct H.
  - auto.
  - intros _. right. by left.
Qed.

(** ** Validation of [url] *)

(** C4, as amended. For every [url] that is present and not empty: when
    no pattern of the allow-list matches it, the answer is status 400
    with [{error: {code: "INVALID_URL"}}] and nothing is called on the
    browser side; when some pattern matches it, the handler goes on to the
    pipeline (it starts acquiring a browser, and the answer is not a 400);
    and the allow-list holds the localhost pattern exactly when
    [NODE_ENV] is not ["production"]. *)
Theorem url_validation (node_env : NodeEnv) (w : World) (q : Query) :
  truthy (q_url q) = true ->
  ((forall re, In re (allowedHostnames node_env) ->
               RegExp.test re (ToString (q_url q)) = false) ->
   run node_env w q =
     (Normal tt,
      {| browser := None; calls := []; statusCode := Some 400; headers := ∅;
         sent := [SentJson {| eb_code := "INVALID_URL"; eb_message := None |}];
         console := [] |})) /\
  ((exists re, In re (allowedHostnames node_env) /\
               RegExp.test re (ToString (q_url q)) = true) ->
   run node_env w q =
     try_catch_finally
       (render w (q_url q) (pixelDensity_of q) (format_of q) (quality_of q))
       (on_error (fallback_of q)) (cleanup w) initial /\
   head (calls (snd (run node_env w q))) = Some CExecutablePath /\
   statusCode (snd (run node_env w q)) <> Some 400) /\
  (In localhost (allowedHostnames node_env) <-> node_env <> Some "production").
Proof.
  intros Ht. split; [|split].
  - intros Hno. apply run_invalid; [done|].
    unfold url_allowed. apply not_true_is_false. intros H.
    apply existsb_exists in H as (re & Hin & Hre).
    rewrite (Hno re Hin) in Hre. discriminate.
  - intros Hex.
    assert (Hv : validated node_env q = true).
    { unfold validated, url_allowed. rewrite Ht, andb_true_l.
      apply existsb_exists. exact Hex. }
    split; [by apply run_validated|]. split; [|by apply validated_status].
    pose proof (run_validated_state node_env w q Hv) as (-> & _).
    pose proof (pipeline_calls w q) as (_ & _ & _ & _ & Hh).
    cbn zeta in Hh. destruct (calls (snd (pipeline w q))); [done|exact Hh].
  - apply localhost_allowed_iff.
Qed.

Lemma url_validation_witness :
  let q := query_of_url "http://localhost:3000/gallery/42" in
  truthy (q_url q) = true /\
  run (Some "production") world_ok q =
    (Normal tt,
     {| browser := None; calls := []; statusCode := Some 400; headers := ∅;
        sent := [SentJson {| eb_code := "INVALID_URL"; eb_message := None |}];
        console := [] |}) /\
  head (calls (snd (run (Some "development") world_ok q)))
    = Some CExecutablePath.
Proof.
  split; [reflexivity|]. split.
  - apply (url_validation (Some "production") world_ok
             (query_of_url "http://localhost:3000/gallery/42") eq_refl).
    intros re Hin. cbn in Hin.
    destruct Hin as [<-|[<-|[]]]; reflexivity.
  - apply (url_validation (Some "development") world_ok
             (query_of_url "http://localhost:3000/gallery/42") eq_refl).
    exists localhost. split; [|reflexivity].
    cbn. right. right. left. reflexivity.
Defined.

(** The claim C4 as first stated fails on a [url] that is present and
    empty: no pattern matches it, and the answer is [MISSING_URL], not
    [INVALID_URL]. *)
Lemma empty_url_is_missing_not_invalid :
  let q := query_of_url "" in
  q_url q = QString "" /\
  (forall re, In re (allowedHostnames None) ->
              RegExp.test re (ToString (q_url q)) = false) /\
  sent (snd (run None world_ok q))
    = [SentJson {| eb_code := "MISSING_URL"; eb_message := None |}] /\
  sent (snd (run None world_ok q))
    <> [SentJson {| eb_code := "INVALID_URL"; eb_message := None |}].
Proof.
  split; [reflexivity|]. split; [|split; [reflexivity|discriminate]].
  intros re Hin. cbn in Hin.
  destruct Hin as [<-|[<-|[<-|[]]]]; reflexivity.
Qed.

(** ** Rendering parameters *)

(** C5, as amended. The effective pixel density is 1 when [pixelDensity]
    does not parse as an integer or parses to zero, and the parsed value
    otherwise, a negative one included; every viewport the handler sets
    is 1280 by 720 with that value as device scale factor, and it sets
    one as soon as it has a page. *)
Theorem pixelDensity_default (q : Query) :
  let parsed := JS.parseInt (ToString (q_pixelDensity q)) in
  let v := {| vp_width := 1280; vp_height := 720;
              vp_deviceScaleFactor := pixelDensity_of q |} in
  (parsed = JS.NaN \/ parsed = JS.Int 0 -> pixelDensity_of q = 1) /\
  (forall z, parsed = JS.Int z -> z <> 0 -> pixelDensity_of q = z) /\
  (forall node_env w p v',
     validated node_env q = true ->
     In (CSetViewport p v') (calls (snd (run node_env w q))) -> v' = v) /\
  (forall node_env w b p,
     validated node_env q = true ->
     launch_outcome w = Normal b -> browser_newPage w b = Ok p ->
     In (CSetViewport p v) (calls (snd (run node_env w q)))).
Proof.
  cbn zeta. unfold pixelDensity_of at 1 2.
  pose proof (pipeline_calls) as Hc. cbn zeta in Hc.
  repeat split.
  - intros [->| ->]; reflexivity.
  - intros z -> Hz. cbn. destruct (Z.eqb_spec z 0); [done|reflexivity].
  - intros node_env w p v' Hv Hin.
    apply (run_calls_In node_env w q (CSetViewport p v') Hv eq_refl) in Hin.
    by apply (Hc w q) in Hin.
  - intros node_env w b p Hv Hl Hp.
    apply (run_calls_In node_env w q (CSetViewport p _) Hv eq_refl).
    by apply (Hc w q) with b.
Qed.

Lemma pixelDensity_default_witness :
  let q := with_pixelDensity "-2" sample_query in
  JS.parseInt (ToString (q_pixelDensity q)) = JS.Int (-2) /\
  -2 <> 0 /\
  pixelDensity_of q = -2.
Proof.
  cbv zeta. split; [reflexivity|]. split; [discriminate|].
  pose proof (pixelDensity_default (with_pixelDensity "-2" sample_query))
    as (_ & H & _).
  exact (H (-2) eq_refl ltac:(discriminate)).
Defined.

(** The claim C5 as first stated fails on a negative [pixelDensity]: it
    parses to a non-positive integer, and that integer, not 1, is the
    device scale factor of the viewport. *)
Lemma negative_pixelDensity_is_kept :
  let q := with_pixelDensity "-2" sample_query in
  JS.parseInt (ToString (q_pixelDensity q)) = JS.Int (-2) /\
  -2 <= 0 /\
  pixelDensity_of q <> 1 /\
  In (CSetViewport 3%nat {| vp_width := 1280; vp_height := 720;
                            vp_deviceScaleFactor := -2 |})
     (calls (snd (run None world_ok q))).
Proof.
  split; [reflexivity|]. split; [lia|]. split; [discriminate|].
  vm_compute. repeat (first [left; reflexivity | right]).
Qed.

(** C6, as amended. The effective quality is 70 when [quality] does not
    parse as an integer, and the parsed value when it parses to an
    integer from 1 to 100. *)
Theorem quality_default (q : Query) :
  let parsed := JS.parseInt (ToString (q_quality q)) in
  (parsed = JS.NaN -> quality_of q = 70) /\
  (forall z, parsed = JS.Int z -> 1 <= z <= 100 -> quality_of q = z).
Proof.
  cbn zeta. unfold quality_of. split.
  - intros ->. reflexivity.
  - intros z -> Hz. cbn. destruct (Z.eqb_spec z 0); [lia|reflexivity].
Qed.

Lemma quality_default_witness :
  let q := with_quality "85" sample_query in
  JS.parseInt (ToString (q_quality q)) = JS.Int 85 /\
  1 <= 85 <= 100 /\
  quality_of q = 85.
Proof.
  cbv zeta. split; [reflexivity|]. split; [lia|].
  pose proof (quality_default (with_quality "85" sample_query)) as (_ & H).
  exact (H 85 eq_refl ltac:(lia)).
Defined.

(** The claim C6 as first stated fails on [quality=0]: 0 is an integer of
    the documented range, and the effective quality, the one the encoder
    gets for a jpeg, is 70. *)
Lemma quality_zero_becomes_70 :
  let q := with_format "jpeg" (with_quality "0" sample_query) in
  JS.parseInt (ToString (q_quality q)) = JS.Int 0 /\
  0 <= 0 <= 100 /\
  quality_of q = 70 /\ quality_of q <> 0 /\
  In (CScreenshot 4%nat {| so_type := "jpeg"; so_quality := Some 70 |})
     (calls (snd (run None world_ok q))).
Proof.
  split; [reflexivity|]. split; [lia|]. split; [reflexivity|].
  split; [discriminate|].
  vm_compute. repeat (first [left; reflexivity | right]).
Qed.

(** The headers of a successful answer. *)
Lemma success_headers (node_env : NodeEnv) (w : World) (q : Query) :
  validated node_env q = true ->
  fst (pipeline w q) = Normal tt ->
  let s := snd (run node_env w q) in
  headers s = <["Content-Type" := "image/" ++ format_of q]>
                (<["Cache-Control" := cache_control]> ∅) /\
  statusCode s = None /\
  exists img, sent s = [SentBuffer img].
Proof.
  intros Hv Hn.
  pose proof (run_validated_state node_env w q Hv) as (_ & Hh & Ha).
  pose proof (pipeline_spec w q) as Hp.
  destruct (pipeline w q) as [c s1]. cbn in *. subst c.
  destruct Hp as (Hst & _ & _ & _ & _ & _ & Hs & Hh1).
  destruct Ha as [-> ->]. rewrite Hh. auto.
Qed.

(** C7. The resolved format is the [format] parameter when that is one
    of png, jpeg and webp, and png otherwise, also when the parameter is
    absent; a successful answer has the header [Content-Type:
    image/<format>]; and a screenshot is asked in that format, with no
    quality when the format is png and with the effective quality for
    jpeg and webp. *)
Theorem format_resolution (q : Query) :
  (forall f, q_format q = QString f -> In f ["png"; "jpeg"; "webp"] ->
             format_of q = f) /\
  ((forall f, q_format q = QString f -> ~ In f ["png"; "jpeg"; "webp"]) ->
   format_of q = "png") /\
  (forall node_env w,
     validated node_env q = true -> fst (pipeline w q) = Normal tt ->
     headers (snd (run node_env w q)) !! "Content-Type"
       = Some ("image/" ++ format_of q)) /\
  (forall node_env w el o,
     validated node_env q = true ->
     In (CScreenshot el o) (calls (snd (run node_env w q))) ->
     so_type o = format_of q /\
     (format_of q = "png" -> so_quality o = None) /\
     (format_of q = "jpeg" \/ format_of q = "webp" ->
      so_quality o = Some (quality_of q))) /\
  (forall node_env w,
     validated node_env q = true -> fst (pipeline w q) = Normal tt ->
     exists el o, In (CScreenshot el o) (calls (snd (run node_env w q)))).
Proof.
  repeat split.
  - intros f Hf Hin. unfold format_of. rewrite Hf. cbn in *.
    destruct Hin as [<-|[<-|[<-|[]]]]; reflexivity.
  - intros Hno. unfold format_of.
    destruct (q_format q) as [|f|l]; try reflexivity. cbn.
    destruct (String.eqb_spec f "png") as [->|]; [reflexivity|].
    destruct (String.eqb_spec f "jpeg") as [->|];
      [destruct (Hno "jpeg" eq_refl); cbn; auto|].
    destruct (String.eqb_spec f "webp") as [->|];
      [destruct (Hno "webp" eq_refl); cbn; auto|].
    reflexivity.
  - intros node_env w Hv Hn.
    pose proof (success_headers node_env w q Hv Hn) as (-> & _).
    apply lookup_insert_eq.
  - apply (run_calls_In node_env w q (CScreenshot el o) H eq_refl) in H0.
    apply (pipeline_calls w q) in H0. by subst o.
  - intros Hpng.
    apply (run_calls_In node_env w q (CScreenshot el o) H eq_refl) in H0.
    apply (pipeline_calls w q) in H0. subst o. cbn. by rewrite Hpng.
  - intros Hf.
    apply (run_calls_In node_env w q (CScreenshot el o) H eq_refl) in H0.
    apply (pipeline_calls w q) in H0. subst o. cbn.
    by destruct Hf as [-> | ->].
  - intros node_env w Hv Hn.
    destruct (pipeline_calls w q) as (_ & _ & _ & He & _).
    destruct (He Hn) as [el Hel]. eexists el, _.
    apply (run_calls_In node_env w q (CScreenshot el _) Hv eq_refl).
    exact Hel.
Qed.

Lemma format_resolution_witness :
  let q := with_quality "85" (with_format "webp" sample_query) in
  q_format q = QString "webp" /\
  In "webp" ["png"; "jpeg"; "webp"] /\
  validated None q = true /\
  fst (pipeline world_ok q) = Normal tt /\
  format_of q = "webp" /\
  headers (snd (run None world_ok q)) !! "Content-Type" = Some "image/webp".
Proof.
  cbv zeta.
  pose proof (format_resolution
                (with_quality "85" (with_format "webp" sample_query)))
    as (Hf & _ & Hh & _).
  split; [reflexivity|]. split; [cbn; tauto|].
  split; [reflexivity|]. split; [reflexivity|].
  split.
  - apply (Hf "webp" eq_refl). cbn. tauto.
  - exact (Hh None world_ok eq_refl eq_refl).
Defined.

(** C8. A successful answer carries the header [Cache-Control:
    s-maxage=28800, stale-while-revalidate=86400]: eight hours fresh,
    twenty-four hours stale while revalidating. *)
Theorem success_cache_control (node_env : NodeEnv) (w : World) (q : Query) :
  validated node_env q = true ->
  fst (pipeline w q) = Normal tt ->
  headers (snd (run node_env w q)) !! "Cache-Control"
    = Some "s-maxage=28800, stale-while-revalidate=86400" /\
  cache_control
    = "s-maxage=" ++ JS.string_of_nat_number (8 * 3600)
      ++ ", stale-while-revalidate=" ++ JS.string_of_nat_number (24 * 3600).
Proof.
  intros Hv Hn.
  pose proof (success_headers node_env w q Hv Hn) as (-> & _).
  split; [|reflexivity].
  rewrite lookup_insert_ne by discriminate.
  apply lookup_insert_eq.
Qed.

Lemma success_cache_control_witness :
  validated None sample_query = true /\
  fst (pipeline world_ok sample_query) = Normal tt /\
  headers (snd (run None world_ok sample_query)) !! "Cache-Control"
    = Some "s-maxage=28800, stale-while-revalidate=86400".
Proof.
  split; [reflexivity|]. split; [reflexivity|].
  exact (proj1 (success_cache_control None world_ok sample_query
                  eq_refl eq_refl)).
Defined.

(** C9. The fallback is not checked against anything: whatever non-empty
    string the [fallback] parameter holds, a validated request whose
    pipeline fails is answered by a redirect to that very string, and by
    nothing else.  No condition bears on the scheme or the host of the
    fallback; the allow-list is consulted for [url] only. *)
Theorem fallback_redirect_unchecked
    (node_env : NodeEnv) (w : World) (q : Query) (e : JS.Error) (f : string) :
  validated node_env q = true ->
  fst (pipeline w q) = Throw e ->
  q_fallback q = QString f ->
  f <> "" ->
  let s := snd (run node_env w q) in
  sent s = [SentRedirect f] /\ statusCode s = None /\ headers s = ∅.
Proof.
  intros Hv He Hf Hne.
  pose proof (run_validated_state node_env w q Hv) as (_ & Hh & Ha).
  pose proof (pipeline_spec w q) as Hp.
  destruct (pipeline w q) as [c s1]. cbn in *. subst c.
  destruct Hp as (_ & _ & _ & _ & _ & _ & Hh1).
  unfold failure_answer, fallback_of in Ha. rewrite Hf in Ha.
  destruct (String.eqb_spec f ""); [done|].
  destruct Ha as [-> ->]. rewrite Hh. auto.
Qed.

Lemma fallback_redirect_unchecked_witness :
  let f := "http://evil.example/login" in
  let q := with_fallback f sample_query in
  let w := world_failing AtGoto TimeoutError in
  validated (Some "production") q = true /\
  fst (pipeline w q) = Throw TimeoutError /\
  q_fallback q = QString f /\
  f <> "" /\
  url_allowed (Some "production") (QString f) = false /\
  sent (snd (run (Some "production") w q)) = [SentRedirect f].
Proof.
  cbv zeta.
  split; [reflexivity|]. split; [reflexivity|]. split; [reflexivity|].
  split; [discriminate|]. split; [reflexivity|].
  exact (proj1 (fallback_redirect_unchecked (Some "production")
                  (world_failing AtGoto TimeoutError)
                  (with_fallback "http://evil.example/login" sample_query)
                  TimeoutError "http://evil.example/login"
                  eq_refl eq_refl eq_refl ltac:(discriminate))).
Defined.

(** ** Strings *)

Lemma string_app_nil_l (a : string) : "" ++ a = a.
Proof. reflexivity. Qed.

Lemma string_app_cons (x : ascii) (a b : string) :
  String x a ++ b = String x (a ++ b).
Proof. reflexivity. Qed.

Lemma string_app_assoc (a b c : string) : (a ++ b) ++ c = a ++ (b ++ c).
Proof.
  induction a as [|x a IH]; [reflexivity|].
  rewrite !string_app_cons. by f_equal.
Qed.

Lemma string_app_nil_r (a : string) : a ++ "" = a.
Proof.
  induction a as [|x a IH]; [reflexivity|].
  rewrite string_app_cons. by f_equal.
Qed.

Lemma string_length_app (a b : string) :
  String.length (a ++ b) = (String.length a + String.length b)%nat.
Proof.
  induction a as [|x a IH]; [reflexivity|].
  rewrite string_app_cons. cbn. by f_equal.
Qed.

Lemma string_length_zero (a : string) : String.length a = 0%nat -> a = "".
Proof. by destruct a. Qed.

Lemma all_ascii_complete (c : ascii) : In c all_ascii.
Proof.
  unfold all_ascii. rewrite <- (ascii_nat_embedding c).
  apply in_map, in_seq. pose proof (nat_ascii_bounded c). lia.
Qed.

(** A property of all characters that a computation checks. *)
Lemma for_all_ascii (f : ascii -> bool) :
  forallb f all_ascii = true -> forall c, f c = true.
Proof.
  intros H c. rewrite forallb_forall in H. apply H, all_ascii_complete.
Qed.

Lemma for_all_ascii2 (f : ascii -> ascii -> bool) :
  forallb (fun c => forallb (f c) all_ascii) all_ascii = true ->
  forall c d, f c d = true.
Proof.
  intros H c d.
  apply (for_all_ascii (f c)), (for_all_ascii _ H).
Qed.

(** The characters with the canonical form of [x] are among the case
    variants of [x]. *)
Lemma case_variants_complete (d x : ascii) :
  Char.canonicalize true d = Char.canonicalize true x ->
  In d (Char.case_variants x).
Proof.
  pose proof (for_all_ascii2
    (fun d x => implb (Ascii.eqb (Char.canonicalize true d)
                                 (Char.canonicalize true x))
                      (existsb (Ascii.eqb d) (Char.case_variants x)))) as H.
  specialize (H ltac:(vm_compute; reflexivity) d x). cbv beta in H.
  intros Heq. rewrite Heq, Ascii.eqb_refl in H. cbn [implb] in H.
  apply existsb_exists in H as (y & Hy & Hd).
  apply Ascii.eqb_eq in Hd. by subst y.
Qed.

(** Canonical forms keep the slashes, and only them. *)
Lemma canonicalize_slash (x : ascii) :
  Ascii.eqb (Char.canonicalize true x) "/" = Ascii.eqb x "/".
Proof.
  pose proof (for_all_ascii
    (fun x => Bool.eqb (Ascii.eqb (Char.canonicalize true x) "/")
                       (Ascii.eqb x "/"))) as H.
  specialize (H ltac:(vm_compute; reflexivity) x).
  by apply Bool.eqb_prop in H.
Qed.

Lemma class_mem_fold (cs : list ClassAtom) (x y : ascii) :
  Char.canonicalize true x = Char.canonicalize true y ->
  class_mem true cs x = true -> class_mem true cs y = true.
Proof.
  intros Hxy. unfold class_mem.
  rewrite !existsb_exists. intros (a & Ha & H). exists a. split; [done|].
  apply existsb_exists in H as (d & Hd & H).
  apply andb_prop in H as [Hm Hc]. apply Ascii.eqb_eq in Hc.
  apply existsb_exists. exists d. split.
  - apply case_variants_complete. congruence.
  - rewrite Hm, andb_true_l. apply Ascii.eqb_eq. congruence.
Qed.

(** With [ignoreCase], a character is in a class exactly when some member
    of the class has its canonical form. *)
Lemma class_mem_spec (cs : list ClassAtom) (x : ascii) :
  class_mem true cs x = true <->
  exists a d, In a cs /\ atom_chars_mem a d = true /\
              Char.canonicalize true d = Char.canonicalize true x.
Proof.
  unfold class_mem. rewrite existsb_exists. split.
  - intros (a & Ha & H). apply existsb_exists in H as (d & _ & H).
    apply andb_prop in H as [Hm Hc]. apply Ascii.eqb_eq in Hc. eauto.
  - intros (a & d & Ha & Hm & Hc). exists a. split; [done|].
    apply existsb_exists. exists d. split.
    + by apply case_variants_complete.
    + rewrite Hm, andb_true_l. by apply Ascii.eqb_eq.
Qed.

(** ** The matcher and the words of a pattern *)

Lemma class_plus_sound (i : bool) (cs : list ClassAtom) (s : string) :
  forall (n n' : nat) (s' : string),
    In (n', s') (class_plus i cs n s) ->
    exists x w, s = String x w ++ s' /\
                n' = (n + String.length (String x w))%nat /\
                all_chars (class_mem i cs) (String x w) = true.
Proof.
  induction s as [|x t IH]; intros n n' s' Hin; [destruct Hin|].
  cbn in Hin. destruct (class_mem i cs x) eqn:Hx; [|destruct Hin].
  apply in_app_iff in Hin as [Hin|[Heq|[]]].
  - apply IH in Hin as (y & w & -> & -> & Hall).
    exists x, (String y w). repeat split.
    + cbn [String.length]. lia.
    + change (all_chars (class_mem i cs) (String x (String y w)))
        with (class_mem i cs x && all_chars (class_mem i cs) (String y w)).
      by rewrite Hx, Hall.
  - injection Heq as <- <-. exists x, "". repeat split.
    + cbn. lia.
    + cbn. by rewrite Hx.
Qed.

Lemma class_plus_complete (i : bool) (cs : list ClassAtom) (w : string) :
  forall (x : ascii) (n : nat) (s : string),
    all_chars (class_mem i cs) (String x w) = true ->
    In ((n + String.length (String x w))%nat, s)
       (class_plus i cs n (String x w ++ s)).
Proof.
  induction w as [|y w IH]; intros x n s Hall.
  - cbn in Hall. rewrite andb_true_r in Hall.
    rewrite string_app_cons, string_app_nil_l. cbn. rewrite Hall.
    apply in_app_iff. right. left. f_equal. lia.
  - change (all_chars (class_mem i cs) (String x (String y w)))
      with (class_mem i cs x && all_chars (class_mem i cs) (String y w))
      in Hall.
    apply andb_prop in Hall as [Hx Hall].
    rewrite string_app_cons. cbn [class_plus]. rewrite Hx.
    apply in_app_iff. left.
    specialize (IH y (S n) s Hall).
    replace (n + String.length (String x (String y w)))%nat
      with (S n + String.length (String y w))%nat by (cbn; lia).
    exact IH.
Qed.

Theorem pmatch_sound (i : bool) (p : Pattern) :
  forall st st' : MState,
    In st' (pmatch i p st) ->
    exists w, snd st = w ++ snd st' /\
              fst st' = (fst st + String.length w)%nat /\
              derive i p (fst st) w.
Proof.
  induction p as [|c|cs|cs|p IH| |p IHp q IHq]; intros [n s] [n' s'] Hin;
    cbn [pmatch fst snd] in *.
  - destruct (Nat.eqb_spec n 0) as [->|]; [|destruct Hin].
    destruct Hin as [[= <- <-]|[]]. exists "". repeat split. constructor.
  - destruct s as [|x t]; [destruct Hin|].
    destruct (chr_eq i c x) eqn:Hx; [|destruct Hin].
    destruct Hin as [[= <- <-]|[]]. exists (String x "").
    repeat split; [cbn; lia|by constructor].
  - destruct s as [|x t]; [destruct Hin|].
    destruct (class_mem i cs x) eqn:Hx; [|destruct Hin].
    destruct Hin as [[= <- <-]|[]]. exists (String x "").
    repeat split; [cbn; lia|by constructor].
  - apply class_plus_sound in Hin as (x & w & -> & -> & Hall).
    exists (String x w). repeat split. by constructor.
  - apply in_app_iff in Hin as [Hin|[[= <- <-]|[]]].
    + apply IH in Hin as (w & Hs & Hn & Hd). exists w.
      repeat split; [done..|by constructor].
    + exists "". repeat split; [cbn; lia|apply derive_Opt_none].
  - destruct Hin as [[= <- <-]|[]]. exists "".
    repeat split; [cbn; lia|constructor].
  - apply in_flat_map in Hin as ([m t] & Hq & Hr).
    apply IHp in Hq as (v & Hs & Hn & Hd). cbn [fst snd] in *.
    apply IHq in Hr as (w & Ht & Hn' & Hd'). cbn [fst snd] in *.
    exists (v ++ w). subst. repeat split.
    + by rewrite string_app_assoc.
    + rewrite string_length_app. lia.
    + by constructor.
Qed.

Theorem pmatch_complete (i : bool) (p : Pattern) (n : nat) (w : string) :
  derive i p n w ->
  forall s, In ((n + String.length w)%nat, s) (pmatch i p (n, w ++ s)).
Proof.
  induction 1 as [|c n x Hx|cs n x Hx|cs n x w Hall|p n w _ IH|p n|n
                  |p q n v w _ IHp _ IHq]; intros s; cbn [pmatch fst snd].
  - left. reflexivity.
  - rewrite string_app_cons, string_app_nil_l, Hx. left. f_equal. cbn. lia.
  - rewrite string_app_cons, string_app_nil_l, Hx. left. f_equal. cbn. lia.
  - by apply class_plus_complete.
  - apply in_app_iff. left. apply IH.
  - apply in_app_iff. right. left. f_equal. cbn. lia.
  - left. f_equal. cbn. lia.
  - apply in_flat_map. exists ((n + String.length v)%nat, w ++ s). split.
    + rewrite string_app_assoc. apply IHp.
    + rewrite string_length_app, Nat.add_assoc. apply IHq.
Qed.

Lemma starts_spec (u : string) :
  forall (n k : nat) (s : string),
    In (k, s) (starts n u) <->
    exists a, u = a ++ s /\ k = (n + String.length a)%nat.
Proof.
  induction u as [|x u IH]; intros n k s; cbn [starts]; split.
  - intros [[= <- <-]|[]]. exists "". split; [reflexivity|cbn; lia].
  - intros (a & Ha & ->). destruct a; [|discriminate Ha].
    rewrite string_app_nil_l in Ha. subst s. left. f_equal. cbn. lia.
  - intros [[= <- <-]|Hin].
    + exists "". split; [reflexivity|cbn; lia].
    + apply IH in Hin as (a & -> & ->). exists (String x a).
      split; [reflexivity|cbn; lia].
  - intros (a & Ha & ->). destruct a as [|y a].
    + rewrite string_app_nil_l in Ha. subst s. left. f_equal. cbn. lia.
    + rewrite string_app_cons in Ha. injection Ha as <- ->.
      right. apply IH. exists a. split; [reflexivity|cbn; lia].
Qed.

(** [test] finds a match exactly when some part of the input is a word
    of the pattern at its index. *)
Theorem test_spec (re : RegExp.t) (u : string) :
  RegExp.test re u = true <->
  exists a w rest, u = a ++ w ++ rest /\
                   derive (ignoreCase re) (source re) (String.length a) w.
Proof.
  unfold RegExp.test. rewrite existsb_exists. split.
  - intros ([k s] & Hin & Hm).
    apply starts_spec in Hin as (a & -> & ->). cbn in Hm.
    unfold matches_at in Hm.
    destruct (pmatch (ignoreCase re) (source re) (String.length a, s))
      as [|st l] eqn:Hp; [discriminate|].
    assert (Hst : In st (pmatch (ignoreCase re) (source re)
                           (String.length a, s))) by (rewrite Hp; by left).
    apply pmatch_sound in Hst as (w & Hs & _ & Hd). cbn [fst snd] in *.
    exists a, w, (snd st). by subst s.
  - intros (a & w & rest & -> & Hd).
    exists (String.length a, w ++ rest). split.
    + apply starts_spec. exists a. split; [reflexivity|cbn; lia].
    + unfold matches_at.
      pose proof (pmatch_complete _ _ _ _ Hd rest) as Hin.
      destruct (pmatch (ignoreCase re) (source re)
                  (String.length a, w ++ rest)); [destruct Hin|reflexivity].
Qed.

(** ** Anchored patterns, literal runs and slashes *)

Lemma derive_anchored (i : bool) (body : Pattern) (n : nat) (w : string) :
  derive i (Seq Bol body) n w <-> n = 0%nat /\ derive i body 0 w.
Proof.
  split.
  - intros H. inversion H as [| | | | | | |p q m v w' Hb Hd]; subst.
    inversion Hb; subst. split; [reflexivity|]. exact Hd.
  - intros [-> H]. rewrite <- (string_app_nil_l w).
    constructor; [constructor|exact H].
Qed.

Lemma test_anchored (re : RegExp.t) (body : Pattern) (u : string) :
  source re = Seq Bol body ->
  RegExp.test re u = true <->
  exists w rest, u = w ++ rest /\ derive (ignoreCase re) body 0 w.
Proof.
  intros Hs. rewrite test_spec, Hs. split.
  - intros (a & w & rest & -> & Hd).
    apply derive_anchored in Hd as [Ha Hd].
    apply string_length_zero in Ha as ->. by exists w, rest.
  - intros (w & rest & -> & Hd). exists "", w, rest. split; [reflexivity|].
    by apply derive_anchored.
Qed.

Lemma derive_Seq_eq (i : bool) (p q : Pattern) (n : nat) (v w x : string) :
  derive i p n v -> derive i q (n + String.length v) w -> x = v ++ w ->
  derive i (Seq p q) n x.
Proof. intros Hp Hq ->. by constructor. Qed.

Lemma derive_Seq_inv (i : bool) (p q : Pattern) (n : nat) (x : string) :
  derive i (Seq p q) n x ->
  exists v w, x = v ++ w /\ derive i p n v /\
              derive i q (n + String.length v) w.
Proof.
  intros H. inversion H; subst. eauto.
Qed.

Lemma derive_Eps_inv (i : bool) (n : nat) (x : string) :
  derive i Eps n x -> x = "".
Proof. intros H. by inversion H. Qed.

Lemma derive_Chr_inv (i : bool) (c : ascii) (n : nat) (w : string) :
  derive i (Chr c) n w -> exists x, w = String x "" /\ chr_eq i c x = true.
Proof. intros H. inversion H; subst. eauto. Qed.

(** A literal run matches itself. *)
Lemma derive_chars_self (i : bool) (lit : string) :
  forall n, derive i (chars lit) n lit.
Proof.
  induction lit as [|c lit IH]; intros n; cbn [chars]; [constructor|].
  apply derive_Seq_eq with (v := String c "") (w := lit);
    [|apply IH|reflexivity].
  constructor. unfold chr_eq. apply Ascii.eqb_refl.
Qed.

(** The words of a literal run are the run, up to case. *)
Lemma derive_chars_fold (lit : string) :
  forall n w, derive true (chars lit) n w -> fold_case w = fold_case lit.
Proof.
  induction lit as [|c lit IH]; intros n w H; cbn [chars] in H.
  - by apply derive_Eps_inv in H as ->.
  - apply derive_Seq_inv in H as (v & w' & -> & Hc & Hw).
    apply derive_Chr_inv in Hc as (x & -> & Hx).
    rewrite string_app_cons, string_app_nil_l. cbn [fold_case].
    apply Ascii.eqb_eq in Hx. rewrite <- Hx. f_equal. by apply IH in Hw.
Qed.

(** A literal run in two parts. *)
Lemma derive_chars_app (i : bool) (a b : string) :
  forall n w,
    derive i (chars (a ++ b)) n w ->
    exists v v', w = v ++ v' /\ derive i (chars a) n v /\
                 derive i (chars b) (n + String.length v) v'.
Proof.
  induction a as [|c a IH]; intros n w H.
  - rewrite string_app_nil_l in H. exists "", w.
    repeat split; [constructor|]. by rewrite Nat.add_0_r.
  - rewrite string_app_cons in H. cbn [chars] in H.
    apply derive_Seq_inv in H as (x & w' & -> & Hc & Hw).
    apply IH in Hw as (v & v' & -> & Hv & Hv').
    exists (x ++ v), v'. repeat split.
    + by rewrite string_app_assoc.
    + cbn [chars]. by constructor.
    + by rewrite string_length_app, Nat.add_assoc.
Qed.

Lemma slashes_app (a b : string) :
  slashes (a ++ b) = (slashes a + slashes b)%nat.
Proof.
  induction a as [|c a IH]; [reflexivity|].
  rewrite string_app_cons. cbn [slashes]. rewrite IH. lia.
Qed.

Lemma slashes_fold (w : string) : slashes (fold_case w) = slashes w.
Proof.
  induction w as [|c w IH]; [reflexivity|].
  cbn [fold_case slashes]. by rewrite canonicalize_slash, IH.
Qed.

Lemma all_chars_no_slash (f : ascii -> bool) (w : string) :
  f "/"%char = false -> all_chars f w = true -> slashes w = 0%nat.
Proof.
  intros Hf. induction w as [|c w IH]; [reflexivity|].
  cbn [all_chars slashes]. intros [Hc Hw]%andb_prop.
  rewrite (IH Hw). destruct (Ascii.eqb_spec c "/") as [->|]; [congruence|done].
Qed.

(** The words of a pattern that takes no slash have none. *)
Lemma derive_no_slash (p : Pattern) (n : nat) (w : string) :
  derive true p n w -> no_slash p = true -> slashes w = 0%nat.
Proof.
  induction 1 as [|c n x Hx|cs n x Hx|cs n x w Hall|p n w _ IH|p n|n
                  |p q n v w _ IHp _ IHq]; cbn [no_slash]; intros Hns;
    try reflexivity.
  - apply negb_true_iff in Hns. cbn [slashes].
    destruct (Ascii.eqb_spec x "/") as [->|]; [congruence|done].
  - apply negb_true_iff in Hns. cbn [slashes].
    destruct (Ascii.eqb_spec x "/") as [->|]; [congruence|done].
  - apply negb_true_iff in Hns. by eapply all_chars_no_slash.
  - by apply IH.
  - apply andb_prop in Hns as [Hp Hq].
    by rewrite slashes_app, IHp, IHq.
Qed.

(** The only word of the pattern character [/] is the slash. *)
Lemma derive_slash (n : nat) (w : string) :
  derive true (Chr "/") n w -> w = "/".
Proof.
  intros (x & -> & Hx)%derive_Chr_inv. unfold chr_eq in Hx.
  rewrite Ascii.eqb_sym, canonicalize_slash in Hx.
  by apply Ascii.eqb_eq in Hx as ->.
Qed.

(** ** The shape of an accepted url *)

Ltac string_norm :=
  rewrite ?string_app_assoc, ?string_app_nil_r, ?string_app_nil_l.

Ltac split_seq H v w H1 :=
  apply derive_Seq_inv in H as (v & w & -> & H1 & H).

Lemma okpc_app_shape (u : string) :
  RegExp.test okpc_app u = true ->
  exists scheme host rest,
    u = scheme ++ host ++ "/" ++ rest /\
    fold_case scheme = "HTTPS://" /\ slashes host = 0%nat.
Proof.
  intros H. apply (test_anchored okpc_app _ u eq_refl) in H
    as (w & rest & -> & Hd).
  cbn [ignoreCase okpc_app fold_right] in Hd.
  split_seq Hd w1 x1 H1. split_seq Hd w2 x2 H2. split_seq Hd w3 x3 H3.
  apply derive_Eps_inv in Hd as ->.
  change (chars "okpc.app/") with (chars ("okpc.app" ++ "/")) in H3.
  apply derive_chars_app in H3 as (v & v' & -> & Hv & Hv').
  cbn [chars] in Hv'. split_seq Hv' y z Hy.
  apply derive_slash in Hy as ->. apply derive_Eps_inv in Hv' as ->.
  exists w1, (w2 ++ v), rest. split; [|split].
  - by string_norm.
  - exact (derive_chars_fold _ _ _ H1).
  - rewrite slashes_app.
    rewrite (derive_no_slash _ _ _ H2) by reflexivity.
    by rewrite (derive_no_slash _ _ _ Hv) by reflexivity.
Qed.

Lemma okpc_vercel_app_shape (u : string) :
  RegExp.test okpc_vercel_app u = true ->
  exists scheme host rest,
    u = scheme ++ host ++ "/" ++ rest /\
    fold_case scheme = "HTTPS://" /\ slashes host = 0%nat.
Proof.
  intros H. apply (test_anchored okpc_vercel_app _ u eq_refl) in H
    as (w & rest & -> & Hd).
  cbn [ignoreCase okpc_vercel_app fold_right] in Hd.
  split_seq Hd w1 x1 H1. split_seq Hd w2 x2 H2. split_seq Hd w3 x3 H3.
  apply derive_Eps_inv in Hd as ->.
  change (chars "-okpc.vercel.app/")
    with (chars ("-okpc.vercel.app" ++ "/")) in H3.
  apply derive_chars_app in H3 as (v & v' & -> & Hv & Hv').
  cbn [chars] in Hv'. split_seq Hv' y z Hy.
  apply derive_slash in Hy as ->. apply derive_Eps_inv in Hv' as ->.
  exists w1, (w2 ++ v), rest. split; [|split].
  - by string_norm.
  - exact (derive_chars_fold _ _ _ H1).
  - rewrite slashes_app.
    rewrite (derive_no_slash _ _ _ H2) by reflexivity.
    by rewrite (derive_no_slash _ _ _ Hv) by reflexivity.
Qed.

Lemma localhost_shape (u : string) :
  RegExp.test localhost u = true ->
  exists scheme host rest,
    u = scheme ++ host ++ "/" ++ rest /\
    fold_case scheme = "HTTP://" /\ slashes host = 0%nat.
Proof.
  intros H. apply (test_anchored localhost _ u eq_refl) in H
    as (w & rest & -> & Hd).
  cbn [ignoreCase localhost fold_right] in Hd.
  split_seq Hd w1 x1 H1. split_seq Hd w2 x2 H2. split_seq Hd w3 x3 H3.
  apply derive_Eps_inv in Hd as ->. apply derive_slash in H3 as ->.
  change (chars "http://localhost")
    with (chars ("http://" ++ "localhost")) in H1.
  apply derive_chars_app in H1 as (v & v' & -> & Hv & Hv').
  exists v, (v' ++ w2), rest. split; [|split].
  - by string_norm.
  - exact (derive_chars_fold _ _ _ Hv).
  - rewrite slashes_app.
    rewrite (derive_no_slash _ _ _ Hv') by reflexivity.
    by rewrite (derive_no_slash _ _ _ H2) by reflexivity.
Qed.

(** Every pattern of the allow-list wants a scheme, a host without
    slash, and a slash right after it. *)
Lemma allowed_shape (node_env : NodeEnv) (re : RegExp.t) (u : string) :
  In re (allowedHostnames node_env) ->
  RegExp.test re u = true ->
  exists scheme host rest,
    u = scheme ++ host ++ "/" ++ rest /\
    (fold_case scheme = "HTTPS://" \/ fold_case scheme = "HTTP://") /\
    slashes host = 0%nat.
Proof.
  unfold allowedHostnames. intros Hin Ht.
  assert (Hre : re = okpc_app \/ re = okpc_vercel_app \/ re = localhost).
  { apply in_app_iff in Hin as [[<-|[<-|[]]]|Hin]; auto.
    case_bool_decide; cbn in Hin; [done|]. destruct Hin as [<-|[]]. auto. }
  destruct Hre as [->|[->| ->]].
  - apply okpc_app_shape in Ht as (s & h & r & ? & ? & ?). eauto 10.
  - apply okpc_vercel_app_shape in Ht as (s & h & r & ? & ? & ?). eauto 10.
  - apply localhost_shape in Ht as (s & h & r & ? & ? & ?). eauto 10.
Qed.

Lemma allowed_slashes (node_env : NodeEnv) (re : RegExp.t) (u : string) :
  In re (allowedHostnames node_env) ->
  RegExp.test re u = true -> (3 <= slashes u)%nat.
Proof.
  intros Hin Ht.
  destruct (allowed_shape _ _ _ Hin Ht) as (s & h & r & -> & Hs & Hh).
  rewrite !slashes_app, Hh, <- (slashes_fold s).
  destruct Hs as [-> | ->]; cbn; lia.
Qed.

(** A url with fewer than three slashes is not allowed. *)
Lemma few_slashes_not_allowed (node_env : NodeEnv) (u : string) :
  (slashes u < 3)%nat -> url_allowed node_env (QString u) = false.
Proof.
  intros Hu. unfold url_allowed. apply not_true_is_false. intros H.
  apply existsb_exists in H as (re & Hin & Ht).
  cbn [ToString] in Ht.
  pose proof (allowed_slashes node_env re u Hin Ht). lia.
Qed.

(** ** Case *)

Lemma fold_case_app (a b : string) :
  fold_case (a ++ b) = fold_case a ++ fold_case b.
Proof.
  induction a as [|c a IH]; [reflexivity|].
  rewrite string_app_cons. cbn [fold_case].
  by rewrite string_app_cons, IH.
Qed.

Lemma fold_case_length (a b : string) :
  fold_case a = fold_case b -> String.length a = String.length b.
Proof.
  revert b. induction a as [|c a IH]; intros [|d b] H;
    cbn [fold_case] in H; try discriminate; [reflexivity|].
  injection H as _ H. cbn. f_equal. by apply IH.
Qed.

Lemma fold_case_app_inv (a b : string) :
  forall w, fold_case w = fold_case (a ++ b) ->
            exists a' b', w = a' ++ b' /\
                          fold_case a' = fold_case a /\
                          fold_case b' = fold_case b.
Proof.
  induction a as [|c a IH]; intros w H.
  - exists "", w. by rewrite string_app_nil_l in H.
  - rewrite string_app_cons in H. destruct w as [|d w];
      cbn [fold_case] in H; [discriminate|].
    injection H as Hd Hw. apply IH in Hw as (a' & b' & -> & Ha & Hb).
    exists (String d a'), b'. repeat split; [|done].
    cbn [fold_case]. f_equal; assumption.
Qed.

Lemma all_chars_fold (cs : list ClassAtom) (w : string) :
  forall w', fold_case w' = fold_case w ->
             all_chars (class_mem true cs) w = true ->
             all_chars (class_mem true cs) w' = true.
Proof.
  induction w as [|c w IH]; intros [|d w'] H; cbn [fold_case] in H;
    try discriminate; [done|].
  injection H as Hd Hw. cbn [all_chars]. intros [Hc Hall]%andb_prop.
  rewrite (class_mem_fold cs c d) by done. by rewrite (IH w').
Qed.

(** With [ignoreCase], the words of a pattern are closed under a change
    of case. *)
Lemma derive_fold (p : Pattern) (n : nat) (w : string) :
  derive true p n w ->
  forall w', fold_case w' = fold_case w -> derive true p n w'.
Proof.
  induction 1 as [|c n x Hx|cs n x Hx|cs n x w Hall|p n w _ IH|p n|n
                  |p q n v w _ IHp _ IHq]; intros w' Hw.
  - destruct w'; [constructor|discriminate].
  - destruct w' as [|y [|]]; cbn [fold_case] in Hw; try discriminate.
    injection Hw as Hy. constructor. unfold chr_eq in *.
    by replace (Char.canonicalize true y) with (Char.canonicalize true x).
  - destruct w' as [|y [|]]; cbn [fold_case] in Hw; try discriminate.
    injection Hw as Hy. constructor. by apply (class_mem_fold cs x y).
  - destruct w' as [|y w']; [discriminate|]. constructor.
    by apply (all_chars_fold cs (String x w)).
  - apply derive_Opt_some. by apply IH.
  - destruct w'; [apply derive_Opt_none|discriminate].
  - destruct w'; [constructor|discriminate].
  - apply fold_case_app_inv in Hw as (v' & w'' & -> & Hv & Hw).
    constructor; [by apply IHp|].
    rewrite (fold_case_length _ _ Hv). by apply IHq.
Qed.

Lemma test_fold_true (re : RegExp.t) (u v : string) :
  ignoreCase re = true ->
  fold_case u = fold_case v ->
  RegExp.test re u = true -> RegExp.test re v = true.
Proof.
  intros Hi Huv. rewrite !test_spec, Hi.
  intros (a & w & rest & -> & Hd). symmetry in Huv.
  apply fold_case_app_inv in Huv as (a' & x & -> & Ha & Hx).
  apply fold_case_app_inv in Hx as (w' & rest' & -> & Hw & _).
  exists a', w', rest'. split; [reflexivity|].
  rewrite (fold_case_length _ _ Ha). by apply (derive_fold _ _ w).
Qed.

(** [test] with [ignoreCase] does not tell apart two inputs that differ
    by case only. *)
Lemma test_fold (re : RegExp.t) (u v : string) :
  ignoreCase re = true ->
  fold_case u = fold_case v ->
  RegExp.test re u = RegExp.test re v.
Proof.
  intros Hi Huv.
  destruct (RegExp.test re u) eqn:Hu, (RegExp.test re v) eqn:Hv;
    try reflexivity.
  - by rewrite (test_fold_true re u v) in Hv.
  - by rewrite (test_fold_true re v u) in Hu.
Qed.

Lemma allowed_ignoreCase (node_env : NodeEnv) (re : RegExp.t) :
  In re (allowedHostnames node_env) -> ignoreCase re = true.
Proof.
  unfold allowedHostnames. intros Hin.
  apply in_app_iff in Hin as [[<-|[<-|[]]]|Hin]; try reflexivity.
  case_bool_decide; cbn in Hin; [done|]. by destruct Hin as [<-|[]].
Qed.

(** ** Accepted hosts *)

Lemma label_char_in_class (x : ascii) :
  is_label_char x = true ->
  class_mem true [ClassWord; ClassChar "-"] x = true.
Proof.
  pose proof (for_all_ascii
    (fun x => implb (is_label_char x)
                    (class_mem true [ClassWord; ClassChar "-"] x))) as H.
  specialize (H ltac:(vm_compute; reflexivity) x). cbv beta in H.
  intros Hx. by rewrite Hx in H.
Qed.

Lemma label_in_class (w : string) :
  all_chars is_label_char w = true ->
  all_chars (class_mem true [ClassWord; ClassChar "-"]) w = true.
Proof.
  induction w as [|c w IH]; [done|]. cbn [all_chars].
  intros [Hc Hw]%andb_prop. by rewrite label_char_in_class, IH.
Qed.

(** A host of one label under [okpc.app], with a path. *)
Lemma okpc_app_subdomain (c : ascii) (sub path : string) :
  all_chars is_label_char (String c sub) = true ->
  RegExp.test okpc_app ("https://" ++ String c sub ++ ".okpc.app/" ++ path)
  = true.
Proof.
  intros Hl. apply (test_anchored okpc_app _ _ eq_refl).
  exists ("https://" ++ (String c sub ++ ".") ++ "okpc.app/" ++ ""), path.
  split; [by string_norm|].
  cbn [ignoreCase okpc_app fold_right].
  constructor; [apply derive_chars_self|].
  constructor; [|constructor; [apply derive_chars_self|constructor]].
  apply derive_Opt_some. constructor.
  - constructor. by apply label_in_class.
  - apply derive_Seq_eq with (v := ".") (w := "");
      [|constructor|reflexivity].
    constructor. reflexivity.
Qed.

(** The host [okpc.app] itself, with a path. *)
Lemma okpc_app_apex (path : string) :
  RegExp.test okpc_app ("https://okpc.app/" ++ path) = true.
Proof.
  apply (test_anchored okpc_app _ _ eq_refl).
  exists ("https://" ++ "" ++ "okpc.app/" ++ ""), path.
  split; [reflexivity|].
  cbn [ignoreCase okpc_app fold_right].
  constructor; [apply derive_chars_self|].
  constructor; [apply derive_Opt_none|].
  constructor; [apply derive_chars_self|constructor].
Qed.

Lemma okpc_app_allowed (node_env : NodeEnv) (u : string) :
  RegExp.test okpc_app u = true -> url_allowed node_env (QString u) = true.
Proof.
  intros H. unfold url_allowed, allowedHostnames. cbn [app existsb ToString].
  by rewrite H.
Qed.

(** ** The allow-list *)

(** A validated request goes on to the pipeline: its first call asks for
    the executable path of the browser, and its answer is neither a 400
    nor [INVALID_URL]. *)
Lemma validated_enters_pipeline (node_env : NodeEnv) (w : World) (q : Query) :
  validated node_env q = true ->
  head (calls (snd (run node_env w q))) = Some CExecutablePath /\
  statusCode (snd (run node_env w q)) <> Some 400 /\
  sent (snd (run node_env w q))
    <> [SentJson {| eb_code := "INVALID_URL"; eb_message := None |}].
Proof.
  intros Hv. split; [|split; [by apply validated_status|]].
  - pose proof (run_validated_state node_env w q Hv) as (-> & _).
    pose proof (pipeline_calls w q) as (_ & _ & _ & _ & Hh).
    cbn zeta in Hh. destruct (calls (snd (pipeline w q))); [done|exact Hh].
  - pose proof (run_validated_state node_env w q Hv) as (_ & _ & Ha).
    pose proof (pipeline_spec w q) as Hp.
    destruct (pipeline w q) as [c s1]. cbn [fst snd] in Ha.
    destruct Hp as (_ & _ & _ & _ & _ & Hc).
    destruct c as [[]|e].
    + destruct Hc as (_ & [img Hs] & _). destruct Ha as [-> _].
      by rewrite Hs.
    + unfold failure_answer in Ha.
      destruct (fallback_of q) as [f|]; [destruct (String.eqb f "")|];
        destruct Ha as [_ ->]; discriminate.
Qed.


(** C10. Every pattern of the allow-list wants a ['/'] right after the
    host: an accepted url is a scheme, a host without slash, a slash and
    the rest.  Hence a url made of a scheme and a host only, such as
    [https://okpc.app], is answered by [INVALID_URL].  The patterns do not
    tell apart two urls that differ by case only.  A url with a path on
    a host of one label under [okpc.app], or on [okpc.app] itself, is
    accepted: the handler goes on to acquire a browser, and its answer is
    neither a 400 nor [INVALID_URL]. *)
Theorem allow_list_patterns (node_env : NodeEnv) :
  (forall re u,
     In re (allowedHostnames node_env) -> RegExp.test re u = true ->
     exists scheme host rest,
       u = scheme ++ host ++ "/" ++ rest /\
       (fold_case scheme = "HTTPS://" \/ fold_case scheme = "HTTP://") /\
       slashes host = 0%nat) /\
  (forall w q scheme host,
     scheme = "https://" \/ scheme = "http://" ->
     slashes host = 0%nat ->
     q_url q = QString (scheme ++ host) ->
     run node_env w q =
       (Normal tt,
        {| browser := None; calls := []; statusCode := Some 400;
           headers := ∅;
           sent := [SentJson {| eb_code := "INVALID_URL";
                                eb_message := None |}];
           console := [] |})) /\
  (forall re u v,
     In re (allowedHostnames node_env) ->
     fold_case u = fold_case v -> RegExp.test re u = RegExp.test re v) /\
  (forall w q c sub path,
     all_chars is_label_char (String c sub) = true ->
     q_url q = QString ("https://" ++ String c sub ++ ".okpc.app/" ++ path) ->
     validated node_env q = true /\
     head (calls (snd (run node_env w q))) = Some CExecutablePath /\
     statusCode (snd (run node_env w q)) <> Some 400 /\
     sent (snd (run node_env w q))
       <> [SentJson {| eb_code := "INVALID_URL"; eb_message := None |}]) /\
  (forall w q path,
     q_url q = QString ("https://okpc.app/" ++ path) ->
     validated node_env q = true /\
     head (calls (snd (run node_env w q))) = Some CExecutablePath /\
     statusCode (snd (run node_env w q)) <> Some 400 /\
     sent (snd (run node_env w q))
       <> [SentJson {| eb_code := "INVALID_URL"; eb_message := None |}]).
Proof.
  split; [|split; [|split; [|split]]].
  - intros re u. apply allowed_shape.
  - intros w q scheme host Hs Hh Hq. apply run_invalid; rewrite Hq.
    + by destruct Hs as [-> | ->].
    + apply few_slashes_not_allowed. rewrite slashes_app, Hh.
      destruct Hs as [-> | ->]; cbn; lia.
  - intros re u v Hin. apply test_fold. by apply (allowed_ignoreCase node_env).
  - intros w q c sub path Hl Hq.
    assert (Hv : validated node_env q = true).
    { unfold validated. rewrite Hq.
      rewrite okpc_app_allowed by by apply okpc_app_subdomain.
      reflexivity. }
    split; [exact Hv|]. by apply validated_enters_pipeline.
  - intros w q path Hq.
    assert (Hv : validated node_env q = true).
    { unfold validated. rewrite Hq.
      rewrite okpc_app_allowed by apply okpc_app_apex.
      reflexivity. }
    split; [exact Hv|]. by apply validated_enters_pipeline.
Qed.

Lemma allow_list_patterns_witness :
  run (Some "production") world_ok (query_of_url "https://okpc.app") =
    (Normal tt,
     {| browser := None; calls := []; statusCode := Some 400; headers := ∅;
        sent := [SentJson {| eb_code := "INVALID_URL"; eb_message := None |}];
        console := [] |}) /\
  RegExp.test okpc_app "HTTPS://Gallery.OKPC.app/42"
    = RegExp.test okpc_app "https://gallery.okpc.app/42" /\
  (let s := snd (run (Some "production") world_ok
                   (query_of_url "https://my-shop.okpc.app/og")) in
   head (calls s) = Some CExecutablePath /\ statusCode s <> Some 400) /\
  (let s := snd (run (Some "production") world_ok
                   (query_of_url "https://okpc.app/og")) in
   head (calls s) = Some CExecutablePath /\ statusCode s <> Some 400).
Proof.
  destruct (allow_list_patterns (Some "production"))
    as (_ & Hinv & Hcase & Hsub & Hapex).
  split; [|split; [|split]].
  - apply (Hinv world_ok (query_of_url "https://okpc.app")
             "https://" "okpc.app"); [by left|reflexivity|reflexivity].
  - apply Hcase; [by left|reflexivity].
  - destruct (Hsub world_ok (query_of_url "https://my-shop.okpc.app/og")
                "m"%char "y-shop" "og" eq_refl eq_refl)
      as (_ & Hh & Hst & _).
    split; [exact Hh|exact Hst].
  - destruct (Hapex world_ok (query_of_url "https://okpc.app/og") "og"
                eq_refl) as (_ & Hh & Hst & _).
    split; [exact Hh|exact Hst].
Defined.

(** * Further properties of the handler *)

(** ** Completion, log and answer of a validated request *)

(** How a validated request completes and what it logs, from the outcome
    of its [try] block. *)
Lemma run_validated_completion (node_env : NodeEnv) (w : World) (q : Query) :
  validated node_env q = true ->
  let s1 := snd (pipeline w q) in
  fst (run node_env w q) =
    (if browser s1 is Some b
     then if browser_close w b is Err e then Throw e else Normal tt
     else Normal tt) /\
  console (snd (run node_env w q)) =
    (if fst (pipeline w q) is Throw e then [(log_message, e)] else []).
Proof.
  intros Hv. rewrite (run_validated _ _ _ Hv).
  pose proof (pipeline_spec w q) as Hp.
  unfold try_catch_finally. fold (pipeline w q).
  destruct (pipeline w q) as [c s1]. cbn [fst snd].
  destruct Hp as (_ & Hco & _).
  unfold cleanup, on_error, unexpected_error, bind, console_error,
    res_redirect, res_json, res_end, res_status, get_browser, await, ret.
  destruct c as [[]|e]; cbn.
  - destruct (browser s1) as [b|]; [destruct (browser_close w b) as [[]|]|];
      cbn; auto.
  - destruct (fallback_of q) as [f|]; [destruct (String.eqb f "")|]; cbn;
      (destruct (browser s1) as [b|];
       [destruct (browser_close w b) as [[]|]|]; cbn);
      rewrite Hco; auto.
Qed.

(** The state after a request that fails validation. *)
Lemma run_not_validated (node_env : NodeEnv) (w : World) (q : Query) :
  validated node_env q = false ->
  exists body,
    (body = MISSING_URL \/ body = INVALID_URL) /\
    run node_env w q =
      (Normal tt,
       {| browser := None; calls := []; statusCode := Some 400;
          headers := ∅; sent := [SentJson body]; console := [] |}).
Proof.
  unfold validated. intros Hv. apply andb_false_iff in Hv.
  destruct (truthy (q_url q)) eqn:Ht.
  - destruct Hv as [Hv|Hv]; [discriminate|].
    exists INVALID_URL. split; [by right|]. by apply run_invalid.
  - exists MISSING_URL. split; [by left|]. by apply run_missing.
Qed.


(** X2. When the request is validated, a browser was launched and
    closing it throws, the handler's promise rejects with that error,
    whether the [try] block completed or threw: the [finally] block is
    not guarded. *)
Theorem close_failure_rejects
    (node_env : NodeEnv) (w : World) (q : Query) (b : Browser) (e : JS.Error) :
  validated node_env q = true ->
  launch_outcome w = Normal b ->
  browser_close w b = Err e ->
  fst (run node_env w q) = Throw e /\
  last (calls (snd (run node_env w q))) = Some (CClose b).
Proof.
  intros Hv Hl Hc.
  pose proof (run_validated_completion node_env w q Hv) as [-> _].
  pose proof (run_validated_state node_env w q Hv) as (-> & _).
  pose proof (pipeline_spec w q) as Hp.
  destruct (pipeline w q) as [c s1]. cbn [fst snd].
  destruct Hp as (_ & _ & _ & _ & -> & _).
  rewrite Hl, Hc. split; [reflexivity|]. apply last_snoc.
Qed.

Lemma close_failure_rejects_witness :
  let w := world_close_failing TimeoutError in
  validated None sample_query = true /\
  launch_outcome w = Normal 2%nat /\
  browser_close w 2%nat = Err TimeoutError /\
  fst (pipeline w sample_query) = Normal tt /\
  fst (run None w sample_query) = Throw TimeoutError.
Proof.
  cbv zeta. repeat (split; [reflexivity|]).
  exact (proj1 (close_failure_rejects None (world_close_failing TimeoutError)
                  sample_query 2%nat TimeoutError eq_refl eq_refl eq_refl)).
Defined.

(** X3. An error of the pipeline is logged once on the console, with the
    handler's message, whether the answer is the redirect or the 500; a
    request that succeeds or that fails validation logs nothing. *)
Theorem errors_are_logged (node_env : NodeEnv) (w : World) (q : Query) :
  console (snd (run node_env w q)) =
    if validated node_env q
    then if fst (pipeline w q) is Throw e
         then [("error while generating opengraph image", e)]
         else []
    else [].
Proof.
  destruct (validated node_env q) eqn:Hv.
  - by pose proof (run_validated_completion node_env w q Hv) as [_ ->].
  - by destruct (run_not_validated node_env w q Hv) as (body & _ & ->).
Qed.

(** X4. The handler sets headers on the image only: an answer that is a
    validation error, a redirect or a 500 carries no header set by the
    handler, so no [Cache-Control]. *)
Theorem headers_only_on_image (node_env : NodeEnv) (w : World) (q : Query) :
  headers (snd (run node_env w q)) =
    if validated node_env q && is_normal (fst (pipeline w q))
    then <["Content-Type" := "image/" ++ format_of q]>
           (<["Cache-Control" :=
                "s-maxage=28800, stale-while-revalidate=86400"]> ∅)
    else ∅.
Proof.
  destruct (validated node_env q) eqn:Hv.
  - pose proof (run_validated_state node_env w q Hv) as (_ & -> & _).
    pose proof (pipeline_spec w q) as Hp.
    destruct (pipeline w q) as [c s1]. cbn [fst snd andb].
    destruct Hp as (_ & _ & _ & _ & _ & Hc).
    destruct c as [[]|e]; cbn [is_normal].
    + by destruct Hc as (_ & _ & ->).
    + by destruct Hc as [_ ->].
  - by destruct (run_not_validated node_env w q Hv) as (body & _ & ->).
Qed.

(** ** The order of the calls *)

(** Case analysis on the outcomes of the world, in the order in which
    the pipeline asks for them. *)
Ltac pipeline_step w :=
  match goal with
  | |- context [chromium_executablePath w] =>
      destruct (chromium_executablePath w) as [[?path|]|?e] eqn:?
  | |- context [String.eqb ?s ""] =>
      is_var s; destruct (String.eqb_spec s "")
  | |- context [import_puppeteer w] =>
      destruct (import_puppeteer w) as [[]|?e] eqn:?
  | |- context [puppeteer_launch w ?o] =>
      destruct (puppeteer_launch w o) as [?b|?e] eqn:?
  | |- context [chromium_puppeteer_launch w ?o] =>
      destruct (chromium_puppeteer_launch w o) as [?b|?e] eqn:?
  | |- context [browser_newPage w ?b] =>
      destruct (browser_newPage w b) as [?p|?e] eqn:?
  | |- context [page_setViewport w ?p ?v] =>
      destruct (page_setViewport w p v) as [[]|?e] eqn:?
  | |- context [page_goto w ?p ?u] =>
      destruct (page_goto w p u) as [[]|?e] eqn:?
  | |- context [page_waitForNetworkIdle w ?p] =>
      destruct (page_waitForNetworkIdle w p) as [[]|?e] eqn:?
  | |- context [page_waitForSelector w ?p ?x ?t] =>
      destruct (page_waitForSelector w p x t) as [[]|?e] eqn:?
  | |- context [page_query w ?p ?x] =>
      destruct (page_query w p x) as [[?el|]|?e] eqn:?
  | |- context [element_screenshot w ?el ?o] =>
      destruct (element_screenshot w el o) as [?img|?e] eqn:?
  end; cbn.

Ltac pipeline_cases w :=
  unfold launch_outcome, pipeline, render, getBrowserInstance, bind, await,
    call, set_browser, throw, res_setHeader, res_send, res_end, ret,
    no_executablePath; cbn;
  repeat pipeline_step w.

Ltac script_rest :=
  eexists _, _, _;
  (split; [first [by left | right; eexists; split; [eassumption|reflexivity]]|]);
  (split; [eexists; reflexivity|]);
  (split; [intros; first [discriminate | reflexivity]|]);
  intros ?b'; first [discriminate | intros [= <-]; reflexivity].

Lemma pipeline_script (w : World) (q : Query) :
  exists launch b p el,
    launch_script w launch /\
    calls (snd (pipeline w q)) `prefix_of` (launch ++ page_script q b p el)%list /\
    (fst (pipeline w q) = Normal tt ->
     calls (snd (pipeline w q)) = (launch ++ page_script q b p el)%list) /\
    (forall b', launch_outcome w = Normal b' -> b' = b).
Proof.
  unfold launch_script, page_script, selector. pipeline_cases w.
  all: first
    [ exists [CExecutablePath; CImportPuppeteer;
              CPuppeteerLaunch (local_options w)];
      script_rest
    | eexists [CExecutablePath; CChromiumLaunch (serverless_options w _)];
      script_rest ].
  Unshelve. all: exact 0%nat.
Qed.

Lemma run_calls_In_any (node_env : NodeEnv) (w : World) (q : Query) (c : Call) :
  is_close c = false ->
  In c (calls (snd (run node_env w q))) ->
  validated node_env q = true /\ In c (calls (snd (pipeline w q))).
Proof.
  intros Hc Hin. destruct (validated node_env q) eqn:Hv.
  - split; [reflexivity|]. by apply (run_calls_In node_env w q c Hv Hc).
  - destruct (run_not_validated node_env w q Hv) as (body & _ & Hr).
    rewrite Hr in Hin. destruct Hin.
Qed.

Ltac pick T :=
  match goal with
  | x : T |- _ => constr:(x)
  | _ => constr:(0%nat)
  end.

Ltac script_leaf :=
  (split; [first [by left | right; eexists; split; [eassumption|reflexivity]]|]);
  unfold local_options, serverless_options, selector in *;
  cbn [app until_failure forallb succeeds];
  repeat (progress (use_outcomes; cbn [is_ok andb]));
  (split; [reflexivity|]);
  (split; [split; intros; first [discriminate | reflexivity]|]);
  intros ?b'; first [discriminate | intros [= <-]; reflexivity].

(** The calls of the [try] block are those of the script, up to the first
    one that does not go through. *)
Lemma pipeline_until_failure (w : World) (q : Query) :
  exists launch b p el,
    launch_script w launch /\
    calls (snd (pipeline w q))
      = until_failure (succeeds w) (launch ++ page_script q b p el) /\
    (fst (pipeline w q) = Normal tt <->
     forallb (succeeds w) (launch ++ page_script q b p el) = true) /\
    (forall b', launch_outcome w = Normal b' -> b' = b).
Proof.
  unfold launch_script, page_script, selector. pipeline_cases w.
  all: let b := pick Browser in
       let p := pick Page in
       let el := pick ElementHandle in
       first
         [ exists [CExecutablePath; CImportPuppeteer;
                   CPuppeteerLaunch (local_options w)], b, p, el;
           script_leaf
         | eexists [CExecutablePath;
                    CChromiumLaunch (serverless_options w _)], b, p, el;
           script_leaf ].
Qed.

(** X5. The browser-side calls of a validated request follow one script,
    in order and without repetition: the executable path, the launch
    (after the import of [puppeteer] when there is no path), the new page,
    the 1280 by 720 viewport, the navigation timeout of 10000 ms, the
    navigation to [url], the wait for network idle, the wait of at most
    500 ms for [#opengraph-image], its lookup, its screenshot.  The calls
    made are exactly those of the script up to the first one that fails;
    the [try] block completes exactly when none fails; and the closing of
    the browser that the launch gave comes last. *)
Theorem calls_follow_script (node_env : NodeEnv) (w : World) (q : Query) :
  validated node_env q = true ->
  exists launch b p el,
    launch_script w launch /\
    calls (snd (run node_env w q))
      = (until_failure (succeeds w) (launch ++ page_script q b p el)
         ++ if launch_outcome w is Normal b' then [CClose b'] else [])%list /\
    (fst (pipeline w q) = Normal tt <->
     forallb (succeeds w) (launch ++ page_script q b p el) = true) /\
    (forall b', launch_outcome w = Normal b' -> b' = b).
Proof.
  intros Hv.
  destruct (pipeline_until_failure w q)
    as (launch & b & p & el & Hl & Hcalls & Hn & Hb).
  exists launch, b, p, el. repeat split; try done; try apply Hn.
  pose proof (run_validated_state node_env w q Hv) as (-> & _).
  rewrite Hcalls. f_equal.
  pose proof (pipeline_spec w q) as Hp.
  destruct (pipeline w q) as [c s1]. cbn [fst snd] in *.
  destruct Hp as (_ & _ & _ & _ & -> & _).
  by destruct (launch_outcome w).
Qed.

Lemma calls_follow_script_witness :
  let w := world_failing AtNetworkIdle TimeoutError in
  validated None sample_query = true /\
  calls (snd (run None w sample_query))
    = [CExecutablePath;
       CChromiumLaunch (serverless_options w "/tmp/chromium");
       CNewPage 2%nat;
       CSetViewport 3%nat {| vp_width := 1280; vp_height := 720;
                             vp_deviceScaleFactor := 1 |};
       CSetDefaultNavigationTimeout 3%nat 10000;
       CGoto 3%nat "https://okpc.app/gallery/42";
       CWaitForNetworkIdle 3%nat;
       CClose 2%nat] /\
  exists launch b p el,
    launch_script w launch /\
    calls (snd (run None w sample_query))
      = (until_failure (succeeds w) (launch ++ page_script sample_query b p el)
         ++ if launch_outcome w is Normal b' then [CClose b'] else [])%list /\
    (fst (pipeline w sample_query) = Normal tt <->
     forallb (succeeds w) (launch ++ page_script sample_query b p el) = true) /\
    (forall b', launch_outcome w = Normal b' -> b' = b).
Proof.
  cbv zeta. split; [reflexivity|]. split; [reflexivity|].
  exact (calls_follow_script None (world_failing AtNetworkIdle TimeoutError)
           sample_query eq_refl).
Defined.

(** The launch calls of the pipeline. *)
Lemma pipeline_launch (w : World) (q : Query) :
  let cs := calls (snd (pipeline w q)) in
  (forall o, In (CPuppeteerLaunch o) cs ->
     o = local_options w /\
     import_puppeteer w = Ok tt /\
     exists p, chromium_executablePath w = Ok p /\
               no_executablePath p = true) /\
  (forall o, In (CChromiumLaunch o) cs ->
     exists path, path <> "" /\
                  chromium_executablePath w = Ok (Some path) /\
                  o = serverless_options w path) /\
  (launch_count cs <= 1)%nat.
Proof.
  unfold local_options, serverless_options, launch_count. pipeline_cases w.
  all: split; [|split]; [intros o Hin|intros o Hin|lia].
  all: repeat (destruct Hin as [Hin|Hin]; try discriminate Hin);
    try (destruct Hin; fail).
  all: injection Hin as <-; subst; eauto 10.
Qed.

(** X6. A request launches at most one browser.  The launch is that of
    the local [puppeteer], headless, exactly when [chromium] gives no
    executable path (null or empty) and the import succeeds; with a path
    it is the launch of [chromium.puppeteer] on that path, with
    [chromium.headless].  Both pass [chromium.args] and ignore HTTPS
    errors. *)
Theorem launch_choice (node_env : NodeEnv) (w : World) (q : Query) :
  let cs := calls (snd (run node_env w q)) in
  (forall o, In (CPuppeteerLaunch o) cs ->
     o = {| lo_executablePath := None; lo_args := chromium_args w;
            lo_headless := true; lo_ignoreHTTPSErrors := true |} /\
     import_puppeteer w = Ok tt /\
     exists p, chromium_executablePath w = Ok p /\
               no_executablePath p = true) /\
  (forall o, In (CChromiumLaunch o) cs ->
     exists path, path <> "" /\
                  chromium_executablePath w = Ok (Some path) /\
                  o = {| lo_executablePath := Some path;
                         lo_args := chromium_args w;
                         lo_headless := chromium_headless w;
                         lo_ignoreHTTPSErrors := true |}) /\
  (launch_count cs <= 1)%nat.
Proof.
  cbn zeta. pose proof (pipeline_launch w q) as (Hl & Hs & Hc).
  split; [|split].
  - intros o Hin.
    apply (run_calls_In_any node_env w q (CPuppeteerLaunch o) eq_refl)
      in Hin as [_ Hin]. exact (Hl o Hin).
  - intros o Hin.
    apply (run_calls_In_any node_env w q (CChromiumLaunch o) eq_refl)
      in Hin as [_ Hin]. exact (Hs o Hin).
  - destruct (validated node_env q) eqn:Hv.
    + pose proof (run_validated_state node_env w q Hv) as (-> & _).
      unfold launch_count in *. rewrite List.filter_app, length_app.
      destruct (browser (snd (pipeline w q))); cbn; lia.
    + destruct (run_not_validated node_env w q Hv) as (body & _ & ->).
      cbn. lia.
Qed.

(** ** Where the browser goes *)

(** X7. The browser only ever navigates to the [url] of the request, as a
    string (a repeated parameter joined by commas), and only when some
    pattern of the allow-list matches that string. *)
Theorem navigates_only_to_allowed_url
    (node_env : NodeEnv) (w : World) (q : Query) (p : Page) (u : string) :
  In (CGoto p u) (calls (snd (run node_env w q))) ->
  u = ToString (q_url q) /\
  exists re, In re (allowedHostnames node_env) /\ RegExp.test re u = true.
Proof.
  intros Hin.
  apply (run_calls_In_any node_env w q (CGoto p u) eq_refl) in Hin
    as [Hv Hin].
  assert (Hu : u = ToString (q_url q)).
  { destruct (pipeline_script w q) as (launch & b & p' & el & Hl & [k Hk] & _).
    assert (Hin' : In (CGoto p u) (launch ++ page_script q b p' el)).
    { rewrite Hk. apply in_app_iff. by left. }
    apply in_app_iff in Hin' as [Hin'|Hin'].
    - destruct Hl as [->|(path & _ & ->)]; cbn in Hin';
        repeat (destruct Hin' as [Hin'|Hin']; try discriminate Hin');
        destruct Hin'.
    - cbn in Hin'.
      repeat (destruct Hin' as [Hin'|Hin']; try discriminate Hin');
        [|destruct Hin'].
      by injection Hin' as _ <-. }
  split; [exact Hu|]. subst u.
  unfold validated in Hv. apply andb_prop in Hv as [_ Hv].
  by apply existsb_exists in Hv.
Qed.

Lemma navigates_only_to_allowed_url_witness :
  In (CGoto 3%nat "https://okpc.app/gallery/42")
     (calls (snd (run None world_ok sample_query))) /\
  exists re, In re (allowedHostnames None) /\
             RegExp.test re "https://okpc.app/gallery/42" = true.
Proof.
  assert (Hin : In (CGoto 3%nat "https://okpc.app/gallery/42")
                   (calls (snd (run None world_ok sample_query)))).
  { vm_compute. repeat (first [left; reflexivity | right]). }
  split; [exact Hin|].
  exact (proj2 (navigates_only_to_allowed_url None world_ok sample_query
                  3%nat "https://okpc.app/gallery/42" Hin)).
Defined.

(** X8. In production a validated [url] is an https one: the scheme,
    whatever its case, then a host without slash, a slash and the rest. *)
Theorem production_urls_are_https (q : Query) :
  validated (Some "production") q = true ->
  exists scheme host rest,
    ToString (q_url q) = scheme ++ host ++ "/" ++ rest /\
    fold_case scheme = "HTTPS://" /\ slashes host = 0%nat.
Proof.
  unfold validated, url_allowed. intros [_ Hv]%andb_prop.
  apply existsb_exists in Hv as (re & Hin & Ht).
  change (allowedHostnames (Some "production"))
    with [okpc_app; okpc_vercel_app] in Hin.
  destruct Hin as [<-|[<-|[]]].
  - by apply okpc_app_shape.
  - by apply okpc_vercel_app_shape.
Qed.

Lemma production_urls_are_https_witness :
  validated (Some "production")
    (query_of_url "HTTPS://shop-okpc.vercel.app/og") = true /\
  exists scheme host rest,
    "HTTPS://shop-okpc.vercel.app/og" = scheme ++ host ++ "/" ++ rest /\
    fold_case scheme = "HTTPS://" /\ slashes host = 0%nat.
Proof.
  split; [reflexivity|].
  exact (production_urls_are_https
           (query_of_url "HTTPS://shop-okpc.vercel.app/og") eq_refl).
Defined.

(** ** What each pattern accepts, exactly *)

Lemma class_label_char (x : ascii) :
  class_mem true [ClassWord; ClassChar "-"] x = is_label_char x.
Proof.
  pose proof (for_all_ascii
    (fun x => Bool.eqb (class_mem true [ClassWord; ClassChar "-"] x)
                       (is_label_char x))) as H.
  specialize (H ltac:(vm_compute; reflexivity) x).
  by apply Bool.eqb_prop in H.
Qed.

Lemma class_digit_char (x : ascii) :
  class_mem true [ClassDigit] x = Char.is_digit x.
Proof.
  pose proof (for_all_ascii
    (fun x => Bool.eqb (class_mem true [ClassDigit] x) (Char.is_digit x)))
    as H.
  specialize (H ltac:(vm_compute; reflexivity) x).
  by apply Bool.eqb_prop in H.
Qed.

Lemma all_chars_ext (f g : ascii -> bool) (w : string) :
  (forall x, f x = g x) -> all_chars f w = all_chars g w.
Proof.
  intros Hfg. induction w as [|c w IH]; [reflexivity|].
  cbn [all_chars]. by rewrite Hfg, IH.
Qed.

(** A pattern character that has one case only matches itself only. *)
Lemma chr_eq_caseless (c x : ascii) :
  Char.case_variants c = [c; c; c] ->
  chr_eq true c x = true -> x = c.
Proof.
  intros Hc Hx. unfold chr_eq in Hx. apply Ascii.eqb_eq in Hx.
  symmetry in Hx. apply case_variants_complete in Hx. rewrite Hc in Hx.
  by destruct Hx as [->|[->|[->|[]]]].
Qed.

Lemma derive_chars_iff (lit : string) (n : nat) (w : string) :
  derive true (chars lit) n w <-> fold_case w = fold_case lit.
Proof.
  split; [apply derive_chars_fold|].
  intros H. apply (derive_fold _ _ lit); [apply derive_chars_self|exact H].
Qed.

Lemma derive_Opt_inv (i : bool) (p : Pattern) (n : nat) (w : string) :
  derive i (Opt p) n w -> w = "" \/ derive i p n w.
Proof. intros H. inversion H; subst; auto. Qed.

Lemma derive_ClassPlus_inv (i : bool) (cs : list ClassAtom) (n : nat)
    (w : string) :
  derive i (ClassPlus cs) n w ->
  exists x w', w = String x w' /\
               all_chars (class_mem i cs) (String x w') = true.
Proof. intros H. inversion H; subst; eauto. Qed.

(** X9. The first pattern accepts exactly the strings made of [https://]
    in any case, then nothing or one label of [[\w-]] characters and a
    dot, then [okpc.app/] in any case, then anything. *)
Theorem okpc_app_accepts_exactly (u : string) :
  RegExp.test okpc_app u = true <->
  exists scheme sub host rest,
    u = scheme ++ sub ++ host ++ rest /\
    fold_case scheme = "HTTPS://" /\
    fold_case host = "OKPC.APP/" /\
    (sub = "" \/
     exists c label, sub = String c label ++ "." /\
                     all_chars is_label_char (String c label) = true).
Proof.
  rewrite (test_anchored okpc_app _ u eq_refl).
  cbn [ignoreCase okpc_app fold_right]. split.
  - intros (w & rest & -> & Hd).
    split_seq Hd w1 x1 H1. split_seq Hd w2 x2 H2. split_seq Hd w3 x3 H3.
    apply derive_Eps_inv in Hd as ->.
    apply derive_chars_fold in H1, H3.
    exists w1, w2, w3, rest. repeat split; [by string_norm|done..|].
    apply derive_Opt_inv in H2 as [->|H2]; [by left|right].
    split_seq H2 l y Hl. split_seq H2 d z Hdot.
    apply derive_Eps_inv in H2 as ->.
    apply derive_ClassPlus_inv in Hl as (c & label & -> & Hall).
    apply derive_Chr_inv in Hdot as (x & -> & Hx).
    apply chr_eq_caseless in Hx as ->; [|reflexivity].
    exists c, label. split; [by string_norm|].
    by rewrite <- (all_chars_ext _ _ _ class_label_char).
  - intros (scheme & sub & host & rest & -> & Hs & Hh & Hsub).
    exists (scheme ++ sub ++ host ++ ""), rest. split; [by string_norm|].
    constructor; [by apply derive_chars_iff|].
    constructor; [|constructor; [by apply derive_chars_iff|constructor]].
    destruct Hsub as [->|(c & label & -> & Hall)]; [apply derive_Opt_none|].
    apply derive_Opt_some. constructor.
    + constructor. by rewrite (all_chars_ext _ _ _ class_label_char).
    + apply derive_Seq_eq with (v := ".") (w := "");
        [|constructor|reflexivity].
      constructor. reflexivity.
Qed.

(** X10. The second pattern accepts exactly the strings made of
    [https://] in any case, then one or more [[\w-]] characters, then
    [-okpc.vercel.app/] in any case, then anything. *)
Theorem okpc_vercel_app_accepts_exactly (u : string) :
  RegExp.test okpc_vercel_app u = true <->
  exists scheme c label host rest,
    u = scheme ++ String c label ++ host ++ rest /\
    fold_case scheme = "HTTPS://" /\
    all_chars is_label_char (String c label) = true /\
    fold_case host = "-OKPC.VERCEL.APP/".
Proof.
  rewrite (test_anchored okpc_vercel_app _ u eq_refl).
  cbn [ignoreCase okpc_vercel_app fold_right]. split.
  - intros (w & rest & -> & Hd).
    split_seq Hd w1 x1 H1. split_seq Hd w2 x2 H2. split_seq Hd w3 x3 H3.
    apply derive_Eps_inv in Hd as ->.
    apply derive_chars_fold in H1, H3.
    apply derive_ClassPlus_inv in H2 as (c & label & -> & Hall).
    exists w1, c, label, w3, rest. repeat split; [by string_norm|done| |done].
    by rewrite <- (all_chars_ext _ _ _ class_label_char).
  - intros (scheme & c & label & host & rest & -> & Hs & Hall & Hh).
    exists (scheme ++ String c label ++ host ++ ""), rest.
    split; [by string_norm|].
    constructor; [by apply derive_chars_iff|].
    constructor; [|constructor; [by apply derive_chars_iff|constructor]].
    constructor. by rewrite (all_chars_ext _ _ _ class_label_char).
Qed.

Lemma localhost_accepts (host port rest : string) :
  fold_case host = "HTTP://LOCALHOST" ->
  (port = "" \/
   exists c ds, port = ":" ++ String c ds /\
                all_chars Char.is_digit (String c ds) = true) ->
  RegExp.test localhost (host ++ port ++ "/" ++ rest) = true.
Proof.
  intros Hh Hport. apply (test_anchored localhost _ _ eq_refl).
  cbn [ignoreCase localhost fold_right].
  exists (host ++ port ++ "/" ++ ""), rest. split; [by string_norm|].
  constructor; [by apply derive_chars_iff|].
  constructor;
    [|apply derive_Seq_eq with (v := "/") (w := "");
      [constructor; reflexivity|constructor|reflexivity]].
  destruct Hport as [->|(c & ds & -> & Hall)]; [apply derive_Opt_none|].
  apply derive_Opt_some.
  apply derive_Seq_eq with (v := ":") (w := String c ds ++ "");
    [by constructor| |by string_norm].
  constructor; [|constructor].
  constructor. by rewrite (all_chars_ext _ _ _ class_digit_char).
Qed.

(** X11. The third pattern accepts exactly the strings made of
    [http://localhost] in any case, then nothing or a colon and one or
    more digits, then a slash, then anything. *)
Theorem localhost_accepts_exactly (u : string) :
  RegExp.test localhost u = true <->
  exists host port rest,
    u = host ++ port ++ "/" ++ rest /\
    fold_case host = "HTTP://LOCALHOST" /\
    (port = "" \/
     exists c ds, port = ":" ++ String c ds /\
                  all_chars Char.is_digit (String c ds) = true).
Proof.
  rewrite (test_anchored localhost _ u eq_refl).
  cbn [ignoreCase localhost fold_right]. split.
  - intros (w & rest & -> & Hd).
    split_seq Hd w1 x1 H1. split_seq Hd w2 x2 H2. split_seq Hd w3 x3 H3.
    apply derive_Eps_inv in Hd as ->. apply derive_slash in H3 as ->.
    apply derive_chars_fold in H1.
    exists w1, w2, rest. repeat split; [by string_norm|done|].
    apply derive_Opt_inv in H2 as [->|H2]; [by left|right].
    split_seq H2 d y Hcolon. split_seq H2 l z Hl.
    apply derive_Eps_inv in H2 as ->.
    apply derive_Chr_inv in Hcolon as (x & -> & Hx).
    apply chr_eq_caseless in Hx as ->; [|reflexivity].
    apply derive_ClassPlus_inv in Hl as (c & ds & -> & Hall).
    exists c, ds. split; [by string_norm|].
    by rewrite <- (all_chars_ext _ _ _ class_digit_char).
  - intros (host & port & rest & -> & Hh & Hport).
    apply (proj1 (test_anchored localhost _ _ eq_refl)).
    by apply localhost_accepts.
Qed.

(** ** Consequences for validation *)

(** X12. What follows the matched part of a url is not checked: a string
    that the allow-list accepts is still accepted with anything appended
    to it (a longer path, a query, a fragment). *)
Theorem url_allowed_extends (node_env : NodeEnv) (u t : string) :
  url_allowed node_env (QString u) = true ->
  url_allowed node_env (QString (u ++ t)) = true.
Proof.
  unfold url_allowed. rewrite !existsb_exists. cbn [ToString].
  intros (re & Hin & Ht). exists re. split; [done|].
  apply test_spec in Ht as (a & w & rest & -> & Hd). apply test_spec.
  exists a, w, (rest ++ t). split; [by string_norm|done].
Qed.

Lemma url_allowed_extends_witness :
  url_allowed (Some "production") (QString "https://okpc.app/") = true /\
  url_allowed (Some "production")
    (QString ("https://okpc.app/" ++ "../../etc?next=http://evil.example/#x"))
  = true.
Proof.
  split; [reflexivity|].
  exact (url_allowed_extends (Some "production") "https://okpc.app/"
           "../../etc?next=http://evil.example/#x" eq_refl).
Defined.

(** X13. A url on [localhost], with or without a port and with a path,
    is validated in every environment but production, where it is
    refused. *)
Theorem localhost_only_outside_production
    (node_env : NodeEnv) (q : Query) (host port path : string) :
  fold_case host = "HTTP://LOCALHOST" ->
  (port = "" \/
   exists c ds, port = ":" ++ String c ds /\
                all_chars Char.is_digit (String c ds) = true) ->
  q_url q = QString (host ++ port ++ "/" ++ path) ->
  validated node_env q = negb (bool_decide (node_env = Some "production")).
Proof.
  intros Hh Hport Hq.
  assert (Ht : truthy (q_url q) = true).
  { rewrite Hq. destruct host; [discriminate Hh|reflexivity]. }
  case_bool_decide as Hp; cbn [negb].
  - subst node_env. apply not_true_is_false. intros Hv.
    unfold validated, url_allowed in Hv. apply andb_prop in Hv as [_ Hv].
    apply existsb_exists in Hv as (re & Hin & Hre).
    change (allowedHostnames (Some "production"))
      with [okpc_app; okpc_vercel_app] in Hin.
    assert (exists s h r, ToString (q_url q) = s ++ h ++ "/" ++ r /\
                          fold_case s = "HTTPS://" /\ slashes h = 0%nat)
      as (s & h & r & Hu & Hs & _).
    { destruct Hin as [<-|[<-|[]]];
        [by apply okpc_app_shape|by apply okpc_vercel_app_shape]. }
    rewrite Hq in Hu. cbn [ToString] in Hu.
    apply (f_equal fold_case) in Hu. rewrite !fold_case_app, Hh, Hs in Hu.
    rewrite !string_app_cons in Hu. discriminate Hu.
  - unfold validated. rewrite Ht, andb_true_l. unfold url_allowed.
    apply existsb_exists. exists localhost. split.
    + apply localhost_allowed_iff. exact Hp.
    + rewrite Hq. by apply localhost_accepts.
Qed.

Lemma localhost_only_outside_production_witness :
  fold_case "http://LocalHost" = "HTTP://LOCALHOST" /\
  validated (Some "production")
    (query_of_url "http://LocalHost:3000/gallery/42") = false /\
  validated (Some "test")
    (query_of_url "http://LocalHost:3000/gallery/42") = true.
Proof.
  split; [reflexivity|].
  assert (Hport : ":3000" = "" \/
            exists c ds, ":3000" = ":" ++ String c ds /\
                         all_chars Char.is_digit (String c ds) = true).
  { right. by exists "3"%char, "000". }
  split.
  - exact (localhost_only_outside_production (Some "production")
             (query_of_url "http://LocalHost:3000/gallery/42")
             "http://LocalHost" ":3000" "gallery/42" eq_refl Hport eq_refl).
  - exact (localhost_only_outside_production (Some "test")
             (query_of_url "http://LocalHost:3000/gallery/42")
             "http://LocalHost" ":3000" "gallery/42" eq_refl Hport eq_refl).
Defined.

(** ** What the encoder and the viewport are given *)

Lemma or_default_nonzero (x : JS.Number) (d : Z) :
  d <> 0 -> JS.or_default x d <> 0.
Proof.
  intros Hd. destruct x as [|z]; cbn; [done|].
  by destruct (Z.eqb_spec z 0).
Qed.

Lemma format_of_allowed (q : Query) : In (format_of q) allowedFormats.
Proof.
  unfold format_of. destruct (includes allowedFormats (q_format q)) eqn:Hi.
  - destruct (q_format q) as [|f|l]; try discriminate Hi. cbn [ToString].
    unfold includes in Hi. apply existsb_exists in Hi as (x & Hx & Hf).
    apply String.eqb_eq in Hf. by subst x.
  - by left.
Qed.

(** X14. Whatever the query, the device scale factor of a viewport that
    the handler sets is never zero; a screenshot is asked in one of the
    three formats, without quality exactly when the format is png, and
    with a quality that is never zero. *)
Theorem rendering_parameters_invariant
    (node_env : NodeEnv) (w : World) (q : Query) :
  let cs := calls (snd (run node_env w q)) in
  (forall p v, In (CSetViewport p v) cs ->
     vp_width v = 1280 /\ vp_height v = 720 /\ vp_deviceScaleFactor v <> 0) /\
  (forall el o, In (CScreenshot el o) cs ->
     In (so_type o) ["png"; "jpeg"; "webp"] /\
     (so_quality o = None <-> so_type o = "png") /\
     (forall k, so_quality o = Some k -> k <> 0)).
Proof.
  cbn zeta. pose proof (pipeline_calls w q) as (Hv & Hs & _).
  cbn zeta in Hv, Hs. split.
  - intros p v Hin.
    apply (run_calls_In_any node_env w q (CSetViewport p v) eq_refl)
      in Hin as [_ Hin].
    apply Hv in Hin as ->. cbn. repeat split.
    by apply or_default_nonzero.
  - intros el o Hin.
    apply (run_calls_In_any node_env w q (CScreenshot el o) eq_refl)
      in Hin as [_ Hin].
    apply Hs in Hin as ->. cbn [so_type so_quality].
    split; [apply format_of_allowed|].
    destruct (String.eqb_spec (format_of q) "png") as [Hf|Hf].
    + repeat split; try done.
    + repeat split; try done.
      intros k [= <-]. by apply or_default_nonzero.
Qed.

(** ** Decimal numerals *)

Lemma digits_of_uint (d r : Decimal.uint) :
  JS.digits 10 (NilEmpty.string_of_uint d)
            (Some (Z.of_N (DecimalPos.Unsigned.of_lu r)))
  = Some (Z.of_N (DecimalPos.Unsigned.of_lu (Decimal.revapp d r))).
Proof.
  revert r. induction d; intros r; cbn [NilEmpty.string_of_uint Decimal.revapp];
    [reflexivity|..];
    cbn [JS.digits]; rewrite <- IHd;
    match goal with
    | |- context [JS.radix_digit 10 ?c] =>
        change (JS.radix_digit 10 c) with (Some (Z.of_N (Char.code c) - 48))
    end; cbn [default Char.code N_of_ascii N_of_digits];
    do 2 f_equal; cbn [DecimalPos.Unsigned.of_lu]; unfold id; lia.
Qed.

Lemma digits_of_numeral (d : Decimal.uint) :
  d <> Decimal.Nil ->
  JS.digits 10 (NilEmpty.string_of_uint d) None
  = Some (Z.of_N (N.of_uint d)).
Proof.
  intros Hd. unfold N.of_uint. rewrite DecimalPos.Unsigned.of_uint_alt.
  unfold Decimal.rev. rewrite <- digits_of_uint.
  destruct d; [done|..]; reflexivity.
Qed.

Lemma numeral_all_digits (d : Decimal.uint) :
  all_chars Char.is_digit (NilEmpty.string_of_uint d) = true.
Proof. induction d; cbn [NilEmpty.string_of_uint all_chars]; auto. Qed.

(** [parseInt] on a string of decimal digits: no white space, sign or
    [0x] to take off. *)
Lemma parseInt_digit_string (s : string) :
  all_chars Char.is_digit s = true ->
  JS.parseInt s = match JS.digits 10 s None with
                  | Some m => JS.Int (1 * m)
                  | None => JS.NaN
                  end.
Proof.
  destruct s as [|c s]; [reflexivity|].
  cbn [all_chars]. intros [Hc Hs]%andb_prop.
  destruct c as [[] [] [] [] [] [] [] []]; cbv in Hc; try discriminate Hc.
  all: unfold JS.parseInt; cbn -[Z.mul JS.digits]; try reflexivity.
  destruct s as [|c2 s2]; [reflexivity|].
  cbn [all_chars] in Hs. apply andb_prop in Hs as [Hc2 _].
  destruct c2 as [[] [] [] [] [] [] [] []]; cbv in Hc2;
    try discriminate Hc2; reflexivity.
Qed.

(** Reading back the decimal numeral of a natural number. *)
Lemma parseInt_numeral (n : N) :
  JS.parseInt (JS.string_of_nat_number n) = JS.Int (Z.of_N n).
Proof.
  unfold JS.string_of_nat_number.
  assert (Hd : N.to_uint n <> Decimal.Nil).
  { destruct n; [discriminate|]. apply DecimalPos.Unsigned.to_uint_nonnil. }
  assert (Hs : NilZero.string_of_uint (N.to_uint n)
               = NilEmpty.string_of_uint (N.to_uint n)).
  { by destruct (N.to_uint n). }
  rewrite Hs, parseInt_digit_string by apply numeral_all_digits.
  rewrite digits_of_numeral by done.
  by rewrite DecimalN.Unsigned.of_to, Z.mul_1_l.
Qed.

(** X15. A [pixelDensity] or a [quality] written as the decimal numeral
    of a positive safe integer is taken at its value. *)
Theorem decimal_parameters_are_kept (q : Query) (n : N) :
  (0 < n <= 9007199254740992)%N ->
  (q_pixelDensity q = QString (JS.string_of_nat_number n) ->
   pixelDensity_of q = Z.of_N n) /\
  (q_quality q = QString (JS.string_of_nat_number n) ->
   quality_of q = Z.of_N n).
Proof.
  intros Hn. unfold pixelDensity_of, quality_of.
  split; intros ->; cbn [ToString]; rewrite parseInt_numeral; cbn;
    destruct (Z.eqb_spec (Z.of_N n) 0); lia.
Qed.

Lemma decimal_parameters_are_kept_witness :
  (0 < 3 <= 9007199254740992)%N /\
  pixelDensity_of (with_pixelDensity "3" sample_query) = 3.
Proof.
  split; [lia|].
  exact (proj1 (decimal_parameters_are_kept
                  (with_pixelDensity "3" sample_query) 3 ltac:(lia))
               eq_refl).
Defined.

(** ** A page without the element *)

Lemma pipeline_missing_element (w : World) (q : Query) (b : Browser) (p : Page) :
  launch_outcome w = Normal b ->
  browser_newPage w b = Ok p ->
  page_setViewport w p {| vp_width := 1280; vp_height := 720;
                          vp_deviceScaleFactor := pixelDensity_of q |}
    = Ok tt ->
  page_goto w p (ToString (q_url q)) = Ok tt ->
  page_waitForNetworkIdle w p = Ok tt ->
  page_waitForSelector w p selector 500 = Ok tt ->
  page_query w p selector = Ok None ->
  fst (pipeline w q)
    = Throw (JS.new_Error "No #opengraph-image element found at path") /\
  (forall el o, ~ In (CScreenshot el o) (calls (snd (pipeline w q)))).
Proof.
  intros Hb Hp Hv Hg Hi Hs Hq. revert Hb. pipeline_cases w.
  all: intros Hb; try discriminate Hb; injection Hb as <-; try congruence.
  all: assert (p0 = p) as -> by congruence; try congruence.
  all: split; [reflexivity|].
  all: intros el' o Hin;
    repeat (destruct Hin as [Hin|Hin]; try discriminate Hin); destruct Hin.
Qed.

(** X16. When the page loads and the element [#opengraph-image] is not
    on it, no screenshot is asked and the request fails with the
    handler's own error: without a fallback the answer is status 500 with
    the message [Error: No #opengraph-image element found at path]. *)
Theorem missing_element_answer
    (node_env : NodeEnv) (w : World) (q : Query) (b : Browser) (p : Page) :
  validated node_env q = true ->
  launch_outcome w = Normal b ->
  browser_newPage w b = Ok p ->
  page_setViewport w p {| vp_width := 1280; vp_height := 720;
                          vp_deviceScaleFactor := pixelDensity_of q |}
    = Ok tt ->
  page_goto w p (ToString (q_url q)) = Ok tt ->
  page_waitForNetworkIdle w p = Ok tt ->
  page_waitForSelector w p "#opengraph-image" 500 = Ok tt ->
  page_query w p "#opengraph-image" = Ok None ->
  let s := snd (run node_env w q) in
  (forall el o, ~ In (CScreenshot el o) (calls s)) /\
  (fallback_of q = None ->
   statusCode s = Some 500 /\
   sent s = [SentJson
               {| eb_code := "UNEXPECTED_ERROR";
                  eb_message :=
                    Some "Error: No #opengraph-image element found at path" |}]).
Proof.
  intros Hv Hb Hp Hvp Hg Hi Hs Hq.
  destruct (pipeline_missing_element w q b p Hb Hp Hvp Hg Hi Hs Hq)
    as [He Hno].
  cbn zeta. split.
  - intros el o Hin.
    apply (run_calls_In node_env w q (CScreenshot el o) Hv eq_refl) in Hin.
    by apply Hno in Hin.
  - intros Hf.
    pose proof (run_validated_state node_env w q Hv) as (_ & _ & Ha).
    rewrite He in Ha. unfold failure_answer in Ha. by rewrite Hf in Ha.
Qed.

Lemma missing_element_answer_witness :
  let w := world_failing AtMissingElement TimeoutError in
  validated None sample_query = true /\
  launch_outcome w = Normal 2%nat /\
  page_query w 3%nat "#opengraph-image" = Ok None /\
  fallback_of sample_query = None /\
  sent (snd (run None w sample_query))
    = [SentJson
         {| eb_code := "UNEXPECTED_ERROR";
            eb_message :=
              Some "Error: No #opengraph-image element found at path" |}].
Proof.
  cbv zeta. repeat (split; [reflexivity|]).
  exact (proj2 (proj2 (missing_element_answer None
                  (world_failing AtMissingElement TimeoutError) sample_query
                  2%nat 3%nat eq_refl eq_refl eq_refl eq_refl eq_refl eq_refl
                  eq_refl eq_refl)
                eq_refl)).
Defined.
